(** * Service setup saga (processor/service/setup.go)

    A shallow embedding of the [serviceSetup] processor: the saga that
    loads a service record, pulls its image, reserves two addresses,
    launches a container, attaches it to the network, runs the plan hook,
    persists the record and projects environment variables, with a list of
    compensating closures that a deferred [clean] runs on failure.

    Every call that leaves the package (docker, ip_control, provider, data,
    util, the display hooks) is recorded as a [call] in a log; what the
    outside answers is given by a [World], whose answers may depend on the
    whole log of calls made so far. *)

From Stdlib Require Import ZArith Ascii String.
From stdpp Require Import gmap strings list fin_maps pretty.

Open Scope string_scope.
Open Scope list_scope.
Open Scope nat_scope.

(** ** Go values *)

(** A Go [error]: [None] is [nil], [Some msg] an error whose [Error()] is [msg]. *)
Definition error : Type := option string.

(** [net.IP] is a byte slice. *)
Definition IP : Type := list Byte.byte.

(** [m[k]] on a [map[string]string]: the zero value when the key is absent. *)
Definition index (m : gmap string string) (k : string) : string :=
  default "" (m !! k).

(** [strings.Replace(s, old, new, -1)] for one-byte [old] and [new]. *)
Fixpoint strings_Replace (s : string) (old new : ascii) : string :=
  match s with
  | EmptyString => EmptyString
  | String c rest =>
      String (if decide (c = old) then new else c) (strings_Replace rest old new)
  end.

(** [strings.Join(elems, sep)]. *)
Fixpoint strings_Join (elems : list string) (sep : string) : string :=
  match elems with
  | [] => ""
  | [e] => e
  | e :: rest => e +:+ sep +:+ strings_Join rest sep
  end.

(** ** The data model *)

Module models.
Record User := { Username : string; Password : string }.

Record ServicePlan := { Users : list User; DefaultUser : string }.

Record Service := {
  ID : string;
  Name : string;
  ExternalIP : string;
  InternalIP : string;
  State : string;
  Type_ : string;
  Plan : ServicePlan
}.

(** The zero value of a [Service] struct. *)
Definition zero : Service :=
  {| ID := ""; Name := ""; ExternalIP := ""; InternalIP := ""; State := "";
     Type_ := ""; Plan := {| Users := []; DefaultUser := "" |} |}.
End models.

Module docker.
Record ContainerConfig := {
  Name : string;
  Image : string;
  Network : string;
  IP : string
}.

(** Of [dockType.ContainerJSON] the saga reads the container id only. *)
Record ContainerJSON := { ID : string }.
End docker.

Module processor.
Record ProcessControl := {
  Meta : gmap string string;
  DisplayLevel : Z
}.
End processor.

(** What [data.Put] is handed: a service record or an environment table. *)
Inductive stored :=
| StoredService (svc : models.Service)
| StoredEnvVars (evars : gmap string string).

(** ** Calls that leave the package *)

Inductive call :=
| control_Display (msg : string)
| control_Info (msg : string)
| data_Get (bucket key : string)
| data_Put (bucket key : string) (value : stored)
| docker_ImagePull (image prefix : string)
| ip_control_ReserveLocal
| ip_control_ReserveGlobal
| ip_control_ReturnIP (ip : IP)
| docker_CreateContainer (config : docker.ContainerConfig)
| docker_ContainerRemove (id : string)
| provider_AddIP (ip : string)
| provider_RemoveIP (ip : string)
| provider_AddNat (global local : string)
| provider_RemoveNat (global local : string)
| util_Exec (id command payload : string)
| util_RandomString (size : Z).

(** The collaborators of the package. The first group are pure helpers of
    other packages; the second group answer the calls above, each from the
    log of calls made before it. *)
Record World := {
  util_AppName : string;
  stylish_Bullet : string -> string;
  stylish_SubBullet : string -> string;
  stylish_GenerateNestedPrefix : Z -> string;
  strings_ToUpper : string -> string;
  IP_String : IP -> string;
  (* json.Marshal of {"config": boxfile.New(boxfile).Node(name).Node("config").Parsed} *)
  plan_payload : string -> string -> string;
  (* json.Unmarshal(plan, &out): the record after the call, and the error *)
  json_Unmarshal : string -> models.ServicePlan -> models.ServicePlan * error;

  (* data.Get(bucket, key, &out): the record after the call, and the error *)
  on_Get_Service : list call -> string -> string -> models.Service -> models.Service * error;
  on_Get_EnvVars : list call -> string -> string -> gmap string string -> gmap string string * error;
  on_Put : list call -> string -> string -> stored -> error;
  on_ImagePull : list call -> string -> string -> error;
  on_ReserveLocal : list call -> IP * error;
  on_ReserveGlobal : list call -> IP * error;
  on_ReturnIP : list call -> IP -> error;
  on_CreateContainer : list call -> docker.ContainerConfig -> docker.ContainerJSON * error;
  on_ContainerRemove : list call -> string -> error;
  on_AddIP : list call -> string -> error;
  on_RemoveIP : list call -> string -> error;
  on_AddNat : list call -> string -> string -> error;
  on_RemoveNat : list call -> string -> string -> error;
  on_Exec : list call -> string -> string -> string -> string * error;
  on_RandomString : list call -> Z -> string
}.

(** ** The saga's state *)

(** The closures pushed on [cleanFuncs], one constructor per literal in the
    source. The address closures read [self.localIP] and [self.globalIP]
    when they run; the container closure holds the id it captured. *)
Inductive cleanFunc :=
| ReturnLocalIP
| ReturnGlobalIP
| RemoveContainer (id : string)
| RemoveGlobalIP
| RemoveNat.

Record serviceSetup := {
  control : processor.ProcessControl;
  service : models.Service;
  localIP : IP;
  globalIP : IP;
  container : docker.ContainerJSON;
  plan : string;
  fail : bool;
  cleanFuncs : list cleanFunc
}.

Definition with_service (v : models.Service) (s : serviceSetup) : serviceSetup :=
  {| control := control s; service := v; localIP := localIP s;
     globalIP := globalIP s; container := container s; plan := plan s;
     fail := fail s; cleanFuncs := cleanFuncs s |}.

Definition with_localIP (v : IP) (s : serviceSetup) : serviceSetup :=
  {| control := control s; service := service s; localIP := v;
     globalIP := globalIP s; container := container s; plan := plan s;
     fail := fail s; cleanFuncs := cleanFuncs s |}.

Definition with_globalIP (v : IP) (s : serviceSetup) : serviceSetup :=
  {| control := control s; service := service s; localIP := localIP s;
     globalIP := v; container := container s; plan := plan s;
     fail := fail s; cleanFuncs := cleanFuncs s |}.

Definition with_container (v : docker.ContainerJSON) (s : serviceSetup) : serviceSetup :=
  {| control := control s; service := service s; localIP := localIP s;
     globalIP := globalIP s; container := v; plan := plan s;
     fail := fail s; cleanFuncs := cleanFuncs s |}.

Definition with_plan (v : string) (s : serviceSetup) : serviceSetup :=
  {| control := control s; service := service s; localIP := localIP s;
     globalIP := globalIP s; container := container s; plan := v;
     fail := fail s; cleanFuncs := cleanFuncs s |}.

Definition with_fail (v : bool) (s : serviceSetup) : serviceSetup :=
  {| control := control s; service := service s; localIP := localIP s;
     globalIP := globalIP s; container := container s; plan := plan s;
     fail := v; cleanFuncs := cleanFuncs s |}.

(** [self.cleanFuncs = append(self.cleanFuncs, f)] *)
Definition push_clean (f : cleanFunc) (s : serviceSetup) : serviceSetup :=
  {| control := control s; service := service s; localIP := localIP s;
     globalIP := globalIP s; container := container s; plan := plan s;
     fail := fail s; cleanFuncs := cleanFuncs s ++ [f] |}.

(** ** The saga monad

    A method on [*serviceSetup] reads and writes the struct and makes
    calls: it maps the struct and the log of calls made so far to a result,
    the struct afterwards, and the log extended by its own calls (oldest
    call first). *)
Definition Saga (A : Type) : Type :=
  serviceSetup -> list call -> A * serviceSetup * list call.

Definition ret {A} (a : A) : Saga A := fun s h => (a, s, h).

Definition bind {A B} (m : Saga A) (k : A -> Saga B) : Saga B :=
  fun s h => let '(a, s1, h1) := m s h in k a s1 h1.

Notation "x <- m ;; k" := (bind m (fun x => k))
  (at level 100, m at next level, right associativity).
Notation "m ;;; k" := (bind m (fun _ => k))
  (at level 100, right associativity).

Definition self : Saga serviceSetup := fun s h => (s, s, h).

Definition update (f : serviceSetup -> serviceSetup) : Saga unit :=
  fun s h => (tt, f s, h).

(** One call: its answer is computed from the log, and the call is logged. *)
Definition perform {A} (c : call) (answer : list call -> A) : Saga A :=
  fun s h => (answer h, s, h ++ [c]).

Definition result {A} (r : A * serviceSetup * list call) : A := r.1.1.
Definition after {A} (r : A * serviceSetup * list call) : serviceSetup := r.1.2.
Definition log {A} (r : A * serviceSetup * list call) : list call := r.2.

(** Go's [int] addition (64-bit two's complement). *)
Definition int_add (a b : Z) : Z :=
  ((a + b + 2 ^ 63) mod 2 ^ 64 - 2 ^ 63)%Z.

Definition set_State (v : string) (svc : models.Service) : models.Service :=
  {| models.ID := models.ID svc; models.Name := models.Name svc;
     models.ExternalIP := models.ExternalIP svc;
     models.InternalIP := models.InternalIP svc; models.State := v;
     models.Type_ := models.Type_ svc; models.Plan := models.Plan svc |}.

Definition set_Plan (v : models.ServicePlan) (svc : models.Service) : models.Service :=
  {| models.ID := models.ID svc; models.Name := models.Name svc;
     models.ExternalIP := models.ExternalIP svc;
     models.InternalIP := models.InternalIP svc; models.State := models.State svc;
     models.Type_ := models.Type_ svc; models.Plan := v |}.

(** ** The constructor *)

(** [serviceSetupFunc]. It is no method, so it has no struct to thread: it
    maps the control and the log to the pair Go returns, the [Meta] map as
    the call leaves it (a Go map is shared with the caller), and the log
    afterwards. *)
Definition serviceSetupFunc (control : processor.ProcessControl) (h : list call)
  : (option serviceSetup * error) * gmap string string * list call :=
  let meta := processor.Meta control in
  if decide (index meta "name" = "" ∨ index meta "image" = "") then
    ((None, Some "missing image or name"), meta, h)
  else
    let meta :=
      if decide (index meta "label" = "")
      then <["label" := index meta "name"]> meta
      else meta in
    ((Some {| control := {| processor.Meta := meta;
                            processor.DisplayLevel := processor.DisplayLevel control |};
              service := models.zero;
              localIP := [];
              globalIP := [];
              container := {| docker.ID := "" |};
              plan := "";
              fail := false;
              cleanFuncs := [] |}, None), meta, h).

Section Methods.

Variable W : World.

(** ** Cleanup *)

(** Calling one of the pushed closures. *)
Definition call_cleanFunc (f : cleanFunc) : Saga error :=
  s <- self ;;
  match f with
  | ReturnLocalIP =>
      perform (ip_control_ReturnIP (localIP s))
              (fun h => on_ReturnIP W h (localIP s))
  | ReturnGlobalIP =>
      perform (ip_control_ReturnIP (globalIP s))
              (fun h => on_ReturnIP W h (globalIP s))
  | RemoveContainer id =>
      perform (docker_ContainerRemove id) (fun h => on_ContainerRemove W h id)
  | RemoveGlobalIP =>
      let g := IP_String W (globalIP s) in
      perform (provider_RemoveIP g) (fun h => on_RemoveIP W h g)
  | RemoveNat =>
      let g := IP_String W (globalIP s) in
      let l := IP_String W (localIP s) in
      perform (provider_RemoveNat g l) (fun h => on_RemoveNat W h g l)
  end.

(** The [for _, cleanF := range self.cleanFuncs] loop of [clean]. *)
Fixpoint range_cleanFuncs (fs : list cleanFunc) : Saga error :=
  match fs with
  | [] => ret None
  | cleanF :: rest =>
      err <- call_cleanFunc cleanF ;;
      match err with
      | Some e => ret (Some e)
      | None => range_cleanFuncs rest
      end
  end.

Definition clean : Saga error :=
  s <- self ;;
  if negb (fail s) then ret None
  else range_cleanFuncs (cleanFuncs s).

(** ** The steps *)

Definition loadService : Saga error :=
  s <- self ;;
  let name := index (processor.Meta (control s)) "name" in
  (* the error of data.Get is dropped *)
  got <- perform (data_Get (util_AppName W) name)
                 (fun h => on_Get_Service W h (util_AppName W) name (service s)) ;;
  update (with_service got.1) ;;;
  s <- self ;;
  (if decide (models.State (service s) = "")
   then update (with_service (set_State "initialized" (service s)))
   else ret tt) ;;;
  ret None.

Definition downloadImage : Saga error :=
  s <- self ;;
  let image := index (processor.Meta (control s)) "image" in
  let prefix :=
    stylish_GenerateNestedPrefix W (int_add (processor.DisplayLevel (control s)) 1)
    +:+ "+ Pulling " +:+ image +:+ " -" in
  err <- perform (docker_ImagePull image prefix)
                 (fun h => on_ImagePull W h image prefix) ;;
  match err with
  | Some e => ret (Some e)
  | None => ret None
  end.

Definition reserveIps : Saga error :=
  got <- perform ip_control_ReserveLocal (on_ReserveLocal W) ;;
  update (with_localIP got.1) ;;;
  match got.2 with
  | Some e => ret (Some e)
  | None =>
      update (push_clean ReturnLocalIP) ;;;
      got <- perform ip_control_ReserveGlobal (on_ReserveGlobal W) ;;
      update (with_globalIP got.1) ;;;
      match got.2 with
      | Some e => ret (Some e)
      | None =>
          update (push_clean ReturnGlobalIP) ;;;
          ret None
      end
  end.

Definition launchContainer : Saga error :=
  s <- self ;;
  let config :=
    {| docker.Name := "nanobox-" +:+ util_AppName W +:+ "-"
                      +:+ index (processor.Meta (control s)) "name";
       docker.Image := index (processor.Meta (control s)) "image";
       docker.Network := "virt";
       docker.IP := IP_String W (localIP s) |} in
  perform (control_Info (stylish_SubBullet W "Starting container..."))
          (fun _ => tt) ;;;
  got <- perform (docker_CreateContainer config)
                 (fun h => on_CreateContainer W h config) ;;
  match got.2 with
  | Some e => ret (Some e)
  | None =>
      update (push_clean (RemoveContainer (docker.ID got.1))) ;;;
      update (with_container got.1) ;;;
      ret None
  end.

Definition attachNetwork : Saga error :=
  perform (control_Info (stylish_SubBullet W "Bridging container to host network..."))
          (fun _ => tt) ;;;
  s <- self ;;
  let g := IP_String W (globalIP s) in
  let l := IP_String W (localIP s) in
  err <- perform (provider_AddIP g) (fun h => on_AddIP W h g) ;;
  match err with
  | Some e => ret (Some e)
  | None =>
      update (push_clean RemoveGlobalIP) ;;;
      err <- perform (provider_AddNat g l) (fun h => on_AddNat W h g l) ;;
      match err with
      | Some e => ret (Some e)
      | None =>
          update (push_clean RemoveNat) ;;;
          ret None
      end
  end.

Definition planService : Saga error :=
  perform (control_Info (stylish_SubBullet W "Gathering service requirements..."))
          (fun _ => tt) ;;;
  s <- self ;;
  let jsonPayload :=
    plan_payload W (index (processor.Meta (control s)) "boxfile")
                   (index (processor.Meta (control s)) "name") in
  let id := docker.ID (container s) in
  got <- perform (util_Exec id "plan" jsonPayload)
                 (fun h => on_Exec W h id "plan" jsonPayload) ;;
  match got.2 with
  | Some e => ret (Some e)
  | None =>
      update (with_plan got.1) ;;;
      ret None
  end.

(** The loop of [persistService] that gives every user a fresh password. *)
Fixpoint set_passwords (users : list models.User) : Saga (list models.User) :=
  match users with
  | [] => ret []
  | u :: rest =>
      p <- perform (util_RandomString 10) (fun h => on_RandomString W h 10%Z) ;;
      rest' <- set_passwords rest ;;
      ret ({| models.Username := models.Username u; models.Password := p |} :: rest')
  end.

Definition persistService : Saga error :=
  s <- self ;;
  let svc :=
    {| models.ID := docker.ID (container s);
       models.Name := index (processor.Meta (control s)) "name";
       models.ExternalIP := IP_String W (globalIP s);
       models.InternalIP := IP_String W (localIP s);
       models.State := "planned";
       models.Type_ := "data";
       models.Plan := models.Plan (service s) |} in
  let parsed := json_Unmarshal W (plan s) (models.Plan svc) in
  update (with_service (set_Plan parsed.1 svc)) ;;;
  match parsed.2 with
  | Some e => ret (Some ("persistService:" +:+ e))
  | None =>
      users <- set_passwords (models.Users parsed.1) ;;
      let svc :=
        set_Plan {| models.Users := users;
                    models.DefaultUser := models.DefaultUser parsed.1 |} svc in
      update (with_service svc) ;;;
      let name := index (processor.Meta (control s)) "name" in
      err <- perform (data_Put (util_AppName W) name (StoredService svc))
                     (fun h => on_Put W h (util_AppName W) name (StoredService svc)) ;;
      match err with
      | Some e => ret (Some e)
      | None => ret None
      end
  end.

(** ** Environment projection *)

(** The [for _, user := range self.service.Plan.Users] loop of
    [addEnvVars], on its two accumulators: the slice [users] and the map
    [envVars]. *)
Fixpoint range_Users (prefix defaultUser : string) (us : list models.User)
    (users : list string) (envVars : gmap string string)
  : list string * gmap string string :=
  match us with
  | [] => (users, envVars)
  | user :: rest =>
      let users := users ++ [models.Username user] in
      let key := prefix +:+ "_" +:+ strings_ToUpper W (models.Username user) +:+ "_PASS" in
      let envVars := <[key := models.Password user]> envVars in
      let envVars :=
        if decide (models.Username user = defaultUser)
        then <[prefix +:+ "_PASS" := models.Password user]>
               (<[prefix +:+ "_USER" := models.Username user]> envVars)
        else envVars in
      range_Users prefix defaultUser rest users envVars
  end.

Definition env_prefix (name : string) : string :=
  strings_ToUpper W (strings_Replace name "." "_").

(** What [addEnvVars] does to the table between loading and storing it. *)
Definition project (svc : models.Service) (envVars : gmap string string)
  : gmap string string :=
  let prefix := env_prefix (models.Name svc) in
  let envVars := <[prefix +:+ "_HOST" := models.InternalIP svc]> envVars in
  let '(users, envVars) :=
    range_Users prefix (models.DefaultUser (models.Plan svc))
                (models.Users (models.Plan svc)) [] envVars in
  if decide (0 < length users)
  then <[prefix +:+ "_USERS" := strings_Join users " "]> envVars
  else envVars.

Definition addEnvVars : Saga error :=
  s <- self ;;
  let bucket := util_AppName W +:+ "_meta" in
  (* the error of data.Get is dropped *)
  got <- perform (data_Get bucket "env")
                 (fun h => on_Get_EnvVars W h bucket "env" ∅) ;;
  let envVars := project (service s) got.1 in
  err <- perform (data_Put bucket "env" (StoredEnvVars envVars))
                 (fun h => on_Put W h bucket "env" (StoredEnvVars envVars)) ;;
  match err with
  | Some e => ret (Some e)
  | None => ret None
  end.

(** ** Process *)

(** [if err := m(); err != nil { self.fail = true; return err }], followed
    by the rest of the function. *)
Definition step (m : Saga error) (rest : Saga error) : Saga error :=
  err <- m ;;
  match err with
  | Some e => update (with_fail true) ;;; ret (Some e)
  | None => rest
  end.

(** [defer d()] before [body]: the deferred call runs when the body has
    returned, sees the struct as the body left it, and its own result is
    discarded; the function has no named result it could assign to. *)
Definition defer {A B} (d : Saga B) (body : Saga A) : Saga A :=
  r <- body ;;
  d ;;;
  ret r.

(** The statements of [Process] after the [defer]. *)
Definition Process_steps : Saga error :=
  step loadService (
    s <- self ;;
    if decide (models.State (service s) ≠ "initialized") then ret None
    else
      step downloadImage (
      step reserveIps (
      step launchContainer (
      step attachNetwork (
      step planService (
      step persistService (
      step addEnvVars (
      ret None)))))))).

Definition Process : Saga error :=
  s <- self ;;
  let header := "Launching " +:+ index (processor.Meta (control s)) "label" +:+ "..." in
  perform (control_Display (stylish_Bullet W header)) (fun _ => tt) ;;;
  defer clean Process_steps.

End Methods.

(** ** A concrete world to run the saga in *)

Definition ascii_upper (c : ascii) : ascii :=
  let n := N_of_ascii c in
  if decide (97 ≤ n ∧ n ≤ 122)%N then ascii_of_N (n - 32) else c.

(** [strings.ToUpper] on ASCII text. *)
Fixpoint ascii_ToUpper (s : string) : string :=
  match s with
  | EmptyString => EmptyString
  | String c rest => String (ascii_upper c) (ascii_ToUpper rest)
  end.

(** [net.IP.String] on the addresses met here: "<nil>" for an address of
    length zero, dotted decimal for a four-byte address. *)
Definition dotted (ip : IP) : string :=
  match ip with
  | [] => "<nil>"
  | _ => strings_Join (map (fun b => pretty (Byte.to_N b)) ip) "."
  end.

(** A world scripted by three functions: what [data.Get] finds for the
    service, which calls fail (and with what), and how plans parse. Address
    pools hand out 10.0.0.2 and 192.168.0.50, the container is "c0ffee",
    the plan hook prints "PLAN" and every password is "s3cr3tpass". *)
Definition scripted
    (found : models.Service -> models.Service)
    (failing : call -> error)
    (parse : string -> models.ServicePlan -> models.ServicePlan * error)
  : World :=
  {| util_AppName := "app";
     stylish_Bullet := fun s => "+ " +:+ s;
     stylish_SubBullet := fun s => "  - " +:+ s;
     stylish_GenerateNestedPrefix := fun _ => "  ";
     strings_ToUpper := ascii_ToUpper;
     IP_String := dotted;
     plan_payload := fun _ _ => "{}";
     json_Unmarshal := parse;
     on_Get_Service := fun _ b k out => (found out, failing (data_Get b k));
     on_Get_EnvVars := fun _ b k out => (out, failing (data_Get b k));
     on_Put := fun _ b k v => failing (data_Put b k v);
     on_ImagePull := fun _ i p => failing (docker_ImagePull i p);
     on_ReserveLocal := fun _ =>
       ([Byte.x0a; Byte.x00; Byte.x00; Byte.x02], failing ip_control_ReserveLocal);
     on_ReserveGlobal := fun _ =>
       ([Byte.xc0; Byte.xa8; Byte.x00; Byte.x32], failing ip_control_ReserveGlobal);
     on_ReturnIP := fun _ ip => failing (ip_control_ReturnIP ip);
     on_CreateContainer := fun _ c =>
       ({| docker.ID := "c0ffee" |}, failing (docker_CreateContainer c));
     on_ContainerRemove := fun _ id => failing (docker_ContainerRemove id);
     on_AddIP := fun _ ip => failing (provider_AddIP ip);
     on_RemoveIP := fun _ ip => failing (provider_RemoveIP ip);
     on_AddNat := fun _ g l => failing (provider_AddNat g l);
     on_RemoveNat := fun _ g l => failing (provider_RemoveNat g l);
     on_Exec := fun _ id c p => ("PLAN", failing (util_Exec id c p));
     on_RandomString := fun _ _ => "s3cr3tpass" |}.

Definition alice_bob : models.ServicePlan :=
  {| models.Users := [ {| models.Username := "alice"; models.Password := "" |};
                       {| models.Username := "bob"; models.Password := "" |} ];
     models.DefaultUser := "alice" |}.

Definition parse_ok (_ : string) (_ : models.ServicePlan) : models.ServicePlan * error :=
  (alice_bob, None).

Definition request : processor.ProcessControl :=
  {| processor.Meta := {[ "name" := "data.db"; "image" := "nanobox/mysql" ]};
     processor.DisplayLevel := 0 |}.

(** The saga the constructor builds for [request]. *)
Definition fresh : serviceSetup :=
  match (serviceSetupFunc request []).1.1.1 with
  | Some s => s
  | None =>
      {| control := request; service := models.zero; localIP := []; globalIP := [];
         container := {| docker.ID := "" |}; plan := ""; fail := false;
         cleanFuncs := [] |}
  end.

(** The global pool is empty. *)
Definition pool_exhausted (c : call) : error :=
  match c with
  | ip_control_ReserveGlobal => Some "global pool exhausted"
  | _ => None
  end.

(** The global pool is empty, and addresses cannot be returned either. *)
Definition pool_exhausted_return_fails (c : call) : error :=
  match c with
  | ip_control_ReserveGlobal => Some "global pool exhausted"
  | ip_control_ReturnIP _ => Some "return failed"
  | _ => None
  end.

(** The NAT rule cannot be added. *)
Definition nat_fails (c : call) : error :=
  match c with
  | provider_AddNat _ _ => Some "nat failed"
  | _ => None
  end.

(** Every call succeeds. *)
Definition nothing_fails (c : call) : error := None.

(** The plan hook printed something that is not JSON. *)
Definition parse_fails (_ : string) (p : models.ServicePlan) : models.ServicePlan * error :=
  (p, Some "unexpected end of JSON input").


(** The address the scripted local pool hands out. *)
Definition local_address : IP := [Byte.x0a; Byte.x00; Byte.x00; Byte.x02].

(** The service of the specification's example, as [persistService] would
    leave it with passwords p1 and p2. *)
Definition data_db (users : list models.User) (defaultUser : string) : models.Service :=
  {| models.ID := "c0ffee"; models.Name := "data.db";
     models.ExternalIP := "192.168.0.50"; models.InternalIP := "10.0.0.2";
     models.State := "planned"; models.Type_ := "data";
     models.Plan := {| models.Users := users; models.DefaultUser := defaultUser |} |}.

Definition alice : models.User := {| models.Username := "alice"; models.Password := "p1" |}.
Definition bob : models.User := {| models.Username := "bob"; models.Password := "p2" |}.

(** The store cannot be read. *)
Definition store_down (c : call) : error :=
  match c with
  | data_Get _ _ => Some "store unavailable"
  | _ => None
  end.

(** A request that names no image. *)
Definition request_without_image : processor.ProcessControl :=
  {| processor.Meta := {[ "name" := "data.db" ]}; processor.DisplayLevel := 0 |}.

(** ** Vocabulary of the statements *)

(** The call a pushed closure makes when it runs on the struct [s]. *)
Definition undo_call (W : World) (s : serviceSetup) (f : cleanFunc) : call :=
  match f with
  | ReturnLocalIP => ip_control_ReturnIP (localIP s)
  | ReturnGlobalIP => ip_control_ReturnIP (globalIP s)
  | RemoveContainer id => docker_ContainerRemove id
  | RemoveGlobalIP => provider_RemoveIP (IP_String W (globalIP s))
  | RemoveNat => provider_RemoveNat (IP_String W (globalIP s)) (IP_String W (localIP s))
  end.

(** The error the world answers an undoing call with, after the log [h]. *)
Definition undo_answer (W : World) (h : list call) (c : call) : error :=
  match c with
  | ip_control_ReturnIP ip => on_ReturnIP W h ip
  | docker_ContainerRemove id => on_ContainerRemove W h id
  | provider_RemoveIP ip => on_RemoveIP W h ip
  | provider_RemoveNat g l => on_RemoveNat W h g l
  | _ => None
  end.

(** The closures of a run that gets through [attachNetwork], in the order
    the steps push them; [id] is the container created. *)
Definition undo_plan (id : string) : list cleanFunc :=
  [ReturnLocalIP; ReturnGlobalIP; RemoveContainer id; RemoveGlobalIP; RemoveNat].

(** The calls only compensating closures make. *)
Definition is_undo (c : call) : bool :=
  match c with
  | ip_control_ReturnIP _ | docker_ContainerRemove _
  | provider_RemoveIP _ | provider_RemoveNat _ _ => true
  | _ => false
  end.

(** A write of a Service record to the store. *)
Definition is_service_put (c : call) : bool :=
  match c with
  | data_Put _ _ (StoredService _) => true
  | _ => false
  end.

(** How many calls in [cs] write a Service record. *)
Definition service_puts (cs : list call) : nat :=
  length (List.filter is_service_put cs).

(** The calls made after the log [h], in a log that extends it. *)
Definition since (h : list call) (l : list call) : list call :=
  drop (length h) l.

(** [made P m]: whatever the struct and the log, [m] only appends to the
    log, and every call it appends satisfies [P]. *)
Definition made {A} (P : call -> Prop) (m : Saga A) : Prop :=
  ∀ s h, ∃ cs, log (m s h) = h ++ cs ∧ Forall P cs.

(** [keeps f m]: [m] leaves the field (or any function of the struct) [f]
    as it found it. *)
Definition keeps {A B} (f : serviceSetup -> B) (m : Saga A) : Prop :=
  ∀ s h, f (after (m s h)) = f s.

(** Neither a compensation nor a write of the Service record. *)
Definition forward_call (c : call) : Prop :=
  is_undo c = false ∧ is_service_put c = false.

(** [tracks m]: [m] sets the failure flag exactly when it returns an error. *)
Definition tracks (m : Saga error) : Prop :=
  ∀ s h, fail (after (m s h)) =
         match result (m s h) with Some _ => true | None => fail s end.

(** The log [l] extends [h0] by calls of which [k] write a Service record. *)
Definition puts_since (h0 : list call) (k : nat) (l : list call) : Prop :=
  ∃ cs, l = h0 ++ cs ∧ service_puts cs = k.

(** Assignments [envVars[k] = v], applied in order. *)
Definition apply_writes (envVars : gmap string string) (ws : list (string * string))
  : gmap string string :=
  foldl (λ m kv, <[kv.1 := kv.2]> m) envVars ws.

Section Vocabulary.

Variable W : World.

(** The first call of [Process]: the display of the launch header. *)
Definition header (s : serviceSetup) : call :=
  control_Display
    (stylish_Bullet W ("Launching " +:+ index (processor.Meta (control s)) "label" +:+ "...")).

(** What [data.Get] leaves in [self.service], and the error it returns. *)
Definition loaded (s : serviceSetup) (h : list call) : models.Service * error :=
  on_Get_Service W h (util_AppName W) (index (processor.Meta (control s)) "name")
                 (service s).

(** What [json.Unmarshal] makes of the plan when [persistService] runs on [s]. *)
Definition parsed (s : serviceSetup) : models.ServicePlan * error :=
  json_Unmarshal W (plan s) (models.Plan (service s)).

(** The six steps before [persistService], each run on the struct and
    log the one before it left; the last triple is [planService]'s. *)
Definition before_persist (s : serviceSetup) (h : list call)
  : error * serviceSetup * list call :=
  let r1 := loadService W s (h ++ [header s]) in
  let r2 := downloadImage W (after r1) (log r1) in
  let r3 := reserveIps W (after r2) (log r2) in
  let r4 := launchContainer W (after r3) (log r3) in
  let r5 := attachNetwork W (after r4) (log r4) in
  planService W (after r5) (log r5).

(** All six returned nil, and the load found state "initialized". *)
Definition preceding_succeed (s : serviceSetup) (h : list call) : Prop :=
  let r1 := loadService W s (h ++ [header s]) in
  let r2 := downloadImage W (after r1) (log r1) in
  let r3 := reserveIps W (after r2) (log r2) in
  let r4 := launchContainer W (after r3) (log r3) in
  let r5 := attachNetwork W (after r4) (log r4) in
  let r6 := planService W (after r5) (log r5) in
  result r1 = None ∧ models.State (service (after r1)) = "initialized" ∧
  result r2 = None ∧ result r3 = None ∧ result r4 = None ∧
  result r5 = None ∧ result r6 = None.

(** The key under which the loop of [addEnvVars] stores a user's password. *)
Definition pass_key (prefix : string) (u : models.User) : string :=
  prefix +:+ "_" +:+ strings_ToUpper W (models.Username u) +:+ "_PASS".

(** The test [user.Username == self.service.Plan.DefaultUser]. *)
Definition is_default (defaultUser : string) (u : models.User) : Prop :=
  models.Username u = defaultUser.

Global Instance is_default_dec d u : Decision (is_default d u).
Proof. unfold is_default. apply _. Defined.

(** The assignments of one pass through the loop body of [addEnvVars]. *)
Definition written (prefix defaultUser : string) (u : models.User)
  : list (string * string) :=
  (pass_key prefix u, models.Password u) ::
  (if decide (is_default defaultUser u)
   then [(prefix +:+ "_USER", models.Username u); (prefix +:+ "_PASS", models.Password u)]
   else []).

(** [project] as one run of assignments. *)
Definition assignments (svc : models.Service) : list (string * string) :=
  let prefix := env_prefix W (models.Name svc) in
  let us := models.Users (models.Plan svc) in
  (prefix +:+ "_HOST", models.InternalIP svc) ::
  flat_map (written prefix (models.DefaultUser (models.Plan svc))) us ++
  (if decide (0 < length us)
   then [(prefix +:+ "_USERS", strings_Join (map models.Username us) " ")]
   else []).

End Vocabulary.

(** ** The remaining methods of the saga *)

(** [Results], a method on the struct by value. *)
Definition Results (s : serviceSetup) : processor.ProcessControl := control s.

(** [validateMeta]. *)
Definition validateMeta : Saga error := ret None.

(** ** The stages of a run

    The struct and log each step of [Process] leaves when it runs on what
    the step before it left, the header having been displayed first. *)
Section Stages.

Variable W : World.

Definition at_load (s : serviceSetup) (h : list call) :=
  loadService W s (h ++ [header W s]).

Definition at_pull (s : serviceSetup) (h : list call) :=
  downloadImage W (after (at_load s h)) (log (at_load s h)).

Definition at_reserve (s : serviceSetup) (h : list call) :=
  reserveIps W (after (at_pull s h)) (log (at_pull s h)).

Definition at_launch (s : serviceSetup) (h : list call) :=
  launchContainer W (after (at_reserve s h)) (log (at_reserve s h)).

Definition at_attach (s : serviceSetup) (h : list call) :=
  attachNetwork W (after (at_launch s h)) (log (at_launch s h)).

Definition at_plan (s : serviceSetup) (h : list call) :=
  planService W (after (at_attach s h)) (log (at_attach s h)).

Definition at_persist (s : serviceSetup) (h : list call) :=
  persistService W (after (at_plan s h)) (log (at_plan s h)).

Definition at_env (s : serviceSetup) (h : list call) :=
  addEnvVars W (after (at_persist s h)) (log (at_persist s h)).

(** The prefix [downloadImage] hands to the progress display. *)
Definition pull_prefix (s : serviceSetup) : string :=
  stylish_GenerateNestedPrefix W (int_add (processor.DisplayLevel (control s)) 1)
  +:+ "+ Pulling " +:+ index (processor.Meta (control s)) "image" +:+ " -".

(** The configuration [launchContainer] creates the container from. *)
Definition container_config (s : serviceSetup) : docker.ContainerConfig :=
  {| docker.Name := "nanobox-" +:+ util_AppName W +:+ "-"
                    +:+ index (processor.Meta (control s)) "name";
     docker.Image := index (processor.Meta (control s)) "image";
     docker.Network := "virt";
     docker.IP := IP_String W (localIP s) |}.

(** In this world no compensating call ever answers an error. *)
Definition undo_never_fails : Prop :=
  ∀ h c, undo_answer W h c = None.

End Stages.

(** The struct after both reservations succeeded, with addresses [l] and [g]. *)
Definition reserved (l g : IP) (s : serviceSetup) : serviceSetup :=
  push_clean ReturnGlobalIP (with_globalIP g (push_clean ReturnLocalIP (with_localIP l s))).

(** The struct after the container [c] was created. *)
Definition launched (c : docker.ContainerJSON) (s : serviceSetup) : serviceSetup :=
  with_container c (push_clean (RemoveContainer (docker.ID c)) s).

(** The struct after both network operations succeeded. *)
Definition attached (s : serviceSetup) : serviceSetup :=
  push_clean RemoveNat (push_clean RemoveGlobalIP s).

(** What the pools and docker answer in a run of [Process] on [s] from the
    log [h]: the local address, the global address, the container. *)
Definition local_address_of (W : World) (s : serviceSetup) (h : list call) : IP :=
  (on_ReserveLocal W (log (at_pull W s h))).1.

Definition global_address_of (W : World) (s : serviceSetup) (h : list call) : IP :=
  (on_ReserveGlobal W (log (at_pull W s h) ++ [ip_control_ReserveLocal])).1.

Definition container_of (W : World) (s : serviceSetup) (h : list call)
  : docker.ContainerJSON :=
  (on_CreateContainer W
     (log (at_reserve W s h)
      ++ [control_Info (stylish_SubBullet W "Starting container...")])
     (container_config W (after (at_reserve W s h)))).1.

(** The calls of the steps from the reservations to the NAT rule, for
    addresses [l] and [g] and a saga [s]. *)
Definition reserve_calls : list call :=
  [ip_control_ReserveLocal; ip_control_ReserveGlobal].

Definition launch_calls (W : World) (s : serviceSetup) (l : IP) : list call :=
  [control_Info (stylish_SubBullet W "Starting container...");
   docker_CreateContainer (container_config W (with_localIP l s))].

Definition attach_calls (W : World) (l g : IP) : list call :=
  [control_Info (stylish_SubBullet W "Bridging container to host network...");
   provider_AddIP (IP_String W g);
   provider_AddNat (IP_String W g) (IP_String W l)].

Definition plan_calls (W : World) (s : serviceSetup) (cid : string) : list call :=
  [control_Info (stylish_SubBullet W "Gathering service requirements...");
   util_Exec cid "plan"
     (plan_payload W (index (processor.Meta (control s)) "boxfile")
                     (index (processor.Meta (control s)) "name"))].

(** The table [addEnvVars] loads in a run of [Process] on [s] from [h]. *)
Definition loaded_env (W : World) (s : serviceSetup) (h : list call)
  : gmap string string :=
  (on_Get_EnvVars W (log (at_persist W s h)) (util_AppName W +:+ "_meta") "env" ∅).1.

(** Worlds for the runs below: one call fails, every other succeeds. *)
Definition pull_fails (c : call) : error :=
  match c with
  | docker_ImagePull _ _ => Some "image not found"
  | _ => None
  end.

Definition create_fails (c : call) : error :=
  match c with
  | docker_CreateContainer _ => Some "no such image"
  | _ => None
  end.

Definition exec_fails (c : call) : error :=
  match c with
  | util_Exec _ _ _ => Some "hook failed"
  | _ => None
  end.

Definition env_put_fails (c : call) : error :=
  match c with
  | data_Put _ _ (StoredEnvVars _) => Some "store is read-only"
  | _ => None
  end.

(** A saga that failed at the environment step: its record is planned, its
    flag is set and its five closures are still on the list. *)
Definition failed_after_persist : serviceSetup :=
  after (Process (scripted id env_put_fails parse_ok) fresh []).


(** * Credentials (package auth)

    The package keeps the credentials of the CLI in two package variables,
    [creds] and [authfile], filled by [init] before anything else runs. Its
    functions print, prompt, call the API, write the file and may end the
    process. *)

Declare Scope auth_scope.

Module auth.

(** The line feed of Go's "\n". *)
Definition LF : string := String "010" EmptyString.

Record credentials := { Userslug : string; Authtoken : string }.

(** Of the user the API returns, the two fields the package reads. *)
Record User := { ID : string; AuthenticationToken : string }.

(** The package variables. *)
Record vars := { creds : credentials; authfile : string }.

Inductive call :=
| fmt_Printf (format : string) (args : list string)
| fmt_Println (line : string)
| util_Prompt (label : string)
| util_PPrompt (label : string)
| api_GetAuthToken (userslug password : string)
| util_CPrint (msg : string)
| ioutil_WriteFile (path content : string) (perm : Z)
| util_LogFatal (msg err : string)
| os_Stat (path : string)
| os_Create (path : string)
| config_ParseConfig (path : string)
| os_Exit (code : Z).

(** How a function ends: it returns, the process exits, or it panics. *)
Inductive outcome (A : Type) :=
| Returned (a : A)
| Exited (code : Z)
| Panicked (err : string).

Arguments Returned {A} a.
Arguments Exited {A} code.
Arguments Panicked {A} err.

(** The collaborators: pure helpers first, then the answers to calls, each
    from the log of calls made before it. [util.LogFatal] is not in the
    package: whether it returns to its caller or ends the process, and
    with which code, is left to the world. *)
Record World := {
  config_Root : string;
  filepath_Clean : string -> string;
  stylish_Bullet : string -> list string -> string;
  LogFatal_ends : option Z;
  on_Prompt : list call -> string -> string;
  on_PPrompt : list call -> string -> string;
  on_GetAuthToken : list call -> string -> string -> User * error;
  on_WriteFile : list call -> string -> string -> Z -> error;
  (* os.Stat: whether the FileInfo it returns is nil *)
  on_Stat : list call -> string -> bool;
  on_Create : list call -> string -> error;
  (* config.ParseConfig(path, creds): the struct after the call, and the error *)
  on_ParseConfig : list call -> string -> credentials -> credentials * error
}.

(** A function of the package: from the variables and the log to how it
    ends, the variables afterwards and the log extended by its calls. *)
Definition M (A : Type) : Type := vars -> list call -> outcome A * vars * list call.

Definition ret {A} (a : A) : M A := fun v h => (Returned a, v, h).

Definition bind {A B} (m : M A) (k : A -> M B) : M B :=
  fun v h =>
    match m v h with
    | (Returned a, v1, h1) => k a v1 h1
    | (Exited code, v1, h1) => (Exited code, v1, h1)
    | (Panicked err, v1, h1) => (Panicked err, v1, h1)
    end.

Notation "x <- m ;; k" := (bind m (fun x => k))
  (at level 100, m at next level, right associativity) : auth_scope.
Notation "m ;;; k" := (bind m (fun _ => k))
  (at level 100, right associativity) : auth_scope.

Local Open Scope auth_scope.

Definition get : M vars := fun v h => (Returned v, v, h).

Definition put (v : vars) : M unit := fun _ h => (Returned tt, v, h).

Definition perform {A} (c : call) (answer : list call -> A) : M A :=
  fun v h => (Returned (answer h), v, h ++ [c]).

(** [os.Exit(code)]. *)
Definition exit {A} (code : Z) : M A :=
  fun v h => (Exited code, v, h ++ [os_Exit code]).

(** [panic(err)]. *)
Definition panic {A} (err : string) : M A := fun v h => (Panicked err, v, h).

Definition ended {A} (r : outcome A * vars * list call) : outcome A := r.1.1.
Definition vars_after {A} (r : outcome A * vars * list call) : vars := r.1.2.
Definition calls {A} (r : outcome A * vars * list call) : list call := r.2.

Section Functions.

Variable W : World.

(** [util.LogFatal(msg, err)]. *)
Definition LogFatal (msg err : string) : M unit :=
  fun v h =>
    match LogFatal_ends W with
    | Some code => (Exited code, v, h ++ [util_LogFatal msg err])
    | None => (Returned tt, v, h ++ [util_LogFatal msg err])
    end.

Definition init : M unit :=
  v <- get ;;
  let path := filepath_Clean W (config_Root W +:+ "/.auth") in
  put {| creds := creds v; authfile := path |} ;;;
  missing <- perform (os_Stat path) (fun h => on_Stat W h path) ;;
  (if missing : bool then
     perform (fmt_Printf (stylish_Bullet W "Creating %s directory" [path]) [])
             (fun _ => tt) ;;;
     err <- perform (os_Create path) (fun h => on_Create W h path) ;;
     match err with
     | Some e => panic e
     | None => ret tt
     end
   else ret tt) ;;;
  let fresh := {| Userslug := ""; Authtoken := "" |} in
  got <- perform (config_ParseConfig path)
                 (fun h => on_ParseConfig W h path fresh) ;;
  put {| creds := got.1; authfile := path |} ;;;
  match got.2 with
  | Some _ =>
      perform (fmt_Printf ("Nanobox failed to parse the .auth file." +:+ LF) [])
              (fun _ => tt) ;;;
      exit 1
  | None => ret tt
  end.

Definition authenticated (v : vars) : bool :=
  if decide (Userslug (creds v) = "" ∨ Authtoken (creds v) = "") then false else true.

Definition saveCredentials (userid authtoken : string) : M error :=
  v <- get ;;
  put {| creds := {| Userslug := userid; Authtoken := authtoken |};
         authfile := authfile v |} ;;;
  let content := "user_slug: " +:+ userid +:+ LF +:+ "auth_token: " +:+ authtoken in
  perform (ioutil_WriteFile (authfile v) content 493)
          (fun h => on_WriteFile W h (authfile v) content 493).

Definition authenticate (Userslug password : string) : M (string * string) :=
  perform (fmt_Printf (LF +:+ "Attempting login for %v... ") [Userslug]) (fun _ => tt) ;;;
  got <- perform (api_GetAuthToken Userslug password)
                 (fun h => on_GetAuthToken W h Userslug password) ;;
  match got.2 with
  | Some _ =>
      perform (util_CPrint "[red]failure![reset]") (fun _ => tt) ;;;
      perform (fmt_Println
                 "Unable to login... please verify your username and password are correct.")
              (fun _ => tt) ;;;
      exit 1
  | None =>
      err <- saveCredentials (ID got.1) (AuthenticationToken got.1) ;;
      (match err with
       | Some e => LogFatal "[auth/auth] saveCredentials failed" e
       | None => ret tt
       end) ;;;
      perform (util_CPrint "[green]success![reset]") (fun _ => tt) ;;;
      ret (ID got.1, AuthenticationToken got.1)
  end.

Definition Authenticate : M (string * string) :=
  perform (fmt_Printf (stylish_Bullet W "Authenticating..." []) []) (fun _ => tt) ;;;
  v <- get ;;
  if negb (authenticated v) then
    perform (fmt_Println "Before continuing, please login to your account:")
            (fun _ => tt) ;;;
    Userslug <- perform (util_Prompt "Username: ") (fun h => on_Prompt W h "Username: ") ;;
    password <- perform (util_PPrompt "Password: ") (fun h => on_PPrompt W h "Password: ") ;;
    authenticate Userslug password
  else ret (Userslug (creds v), Authtoken (creds v)).

Definition Reauthenticate : M (string * string) :=
  perform (fmt_Println (LF
    +:+ "It appears the Username or API token the CLI is trying to use does not match what"
    +:+ LF
    +:+ "we have on record. To continue, please login to verify your account:"
    +:+ LF +:+ "  ")) (fun _ => tt) ;;;
  Userslug <- perform (util_Prompt "Username: ") (fun h => on_Prompt W h "Username: ") ;;
  password <- perform (util_PPrompt "Password: ") (fun h => on_PPrompt W h "Password: ") ;;
  authenticate Userslug password.

End Functions.

(** What [authenticate] prints before it calls the API. *)
Definition attempt (u : string) : call :=
  fmt_Printf (LF +:+ "Attempting login for %v... ") [u].

(** A world to run the package in: the user types "alice" and "hunter2",
    the API knows that pair alone and answers with the token "t0k3n", and
    the file system does as it is told. *)
Definition typing (writable : bool) : World :=
  {| config_Root := "/home/alice/.nanobox";
     filepath_Clean := fun p => p;
     stylish_Bullet := fun f _ => "+ " +:+ f;
     LogFatal_ends := Some 1%Z;
     on_Prompt := fun _ _ => "alice";
     on_PPrompt := fun _ _ => "hunter2";
     on_GetAuthToken := fun _ u p =>
       if decide (u = "alice" ∧ p = "hunter2")
       then ({| ID := "alice"; AuthenticationToken := "t0k3n" |}, None)
       else ({| ID := ""; AuthenticationToken := "" |}, Some "401 Unauthorized");
     on_WriteFile := fun _ _ _ _ => if writable then None else Some "permission denied";
     on_Stat := fun _ _ => false;
     on_Create := fun _ _ => None;
     on_ParseConfig := fun _ _ c => (c, None) |}.

(** The same, with a user who mistypes the password. *)
Definition mistyping : World :=
  {| config_Root := "/home/alice/.nanobox";
     filepath_Clean := fun p => p;
     stylish_Bullet := fun f _ => "+ " +:+ f;
     LogFatal_ends := Some 1%Z;
     on_Prompt := fun _ _ => "alice";
     on_PPrompt := fun _ _ => "hunter3";
     on_GetAuthToken := fun _ u p =>
       if decide (u = "alice" ∧ p = "hunter2")
       then ({| ID := "alice"; AuthenticationToken := "t0k3n" |}, None)
       else ({| ID := ""; AuthenticationToken := "" |}, Some "401 Unauthorized");
     on_WriteFile := fun _ _ _ _ => None;
     on_Stat := fun _ _ => false;
     on_Create := fun _ _ => None;
     on_ParseConfig := fun _ _ c => (c, None) |}.

(** A world in which [os.Stat] finds no auth file and none can be created. *)
Definition no_home : World :=
  {| config_Root := "/home/alice/.nanobox";
     filepath_Clean := fun p => p;
     stylish_Bullet := fun f _ => "+ " +:+ f;
     LogFatal_ends := Some 1%Z;
     on_Prompt := fun _ _ => "alice";
     on_PPrompt := fun _ _ => "hunter2";
     on_GetAuthToken := fun _ _ _ =>
       ({| ID := ""; AuthenticationToken := "" |}, Some "401 Unauthorized");
     on_WriteFile := fun _ _ _ _ => Some "permission denied";
     on_Stat := fun _ _ => true;
     on_Create := fun _ _ => Some "permission denied";
     on_ParseConfig := fun _ _ c => (c, None) |}.

(** The variables as [init] leaves them when the file holds nothing. *)
Definition logged_out : vars :=
  {| creds := {| Userslug := ""; Authtoken := "" |};
     authfile := "/home/alice/.nanobox/.auth" |}.

End auth.

(** * The build command (package commands)

    [BuildCommand.Run] parses its flags, connects to the mist server,
    subscribes to the build's updates and logs, posts the build and then
    follows the stream of messages until one of them ends it. Calls that
    it defers are kept on a stack and made, last deferred first, when the
    function returns or panics; they are not made when the process exits. *)

Declare Scope commands_scope.

Module commands.

Definition LF : string := String "010" EmptyString.

(** Of [Entry], declared elsewhere in the package, the fields [Run] reads. *)
Record Entry := { Log : string; Model : string; Document : string }.

Record Build := { ID : string; Status : string }.

(** A message of the mist client: its tags and its data. *)
Record Message := { Tags : list string; Data : string }.

(** What [flags.Parse] leaves: the two flag variables, its error, and
    whether it called [flags.Usage] on the way. *)
Record Parsed := { fReset : bool; fVerbose : bool; parse_err : error; usage : bool }.

Inductive call :=
| flags_Parse (opts : list string)
| ui_CPrint (msg : string)
| ui_LogFatal (msg err : string)
| client_Connect (host port : string)
| client_Close
| client_Subscribe (tags : list string)
| client_Unsubscribe (sub : Z)
| printv (msg : string) (verbose : bool)
| fmt_Printf (format : string)
| api_DoRawRequest (method path : string)
| Console_Debug (format : string) (args : list string).

Inductive outcome (A : Type) :=
| Returned (a : A)
| Exited (code : Z)
| Panicked (err : string).

Arguments Returned {A} a.
Arguments Exited {A} code.
Arguments Panicked {A} err.

(** The collaborators. [ui.LogFatal] and [printv] are not in the file:
    the first may return or end the process, as the world has it; the
    second is recorded with its arguments. Subscriptions are numbers. *)
Record World := {
  config_Boxfile_IP : string;
  config_App : string;
  stylish_Bullet : string -> string;
  stylish_Warning : string -> string;
  stylish_Error : string -> string -> string;
  LogFatal_ends : option Z;
  (* json.Unmarshal(data, &entry) with entry a *Entry: the pointer after
     the call, nil ([None]) after a JSON null, and the error *)
  Unmarshal_Entry : string -> option Entry -> option Entry * error;
  (* json.Unmarshal(document, build) into a fresh Build *)
  Unmarshal_Build : string -> Build * error;
  on_Parse : list call -> list string -> Parsed;
  on_Connect : list call -> error;
  on_Subscribe : list call -> list string -> Z * error;
  on_DoRawRequest : list call -> string -> string -> error;
  (* the messages [client.Data] delivers before it is closed *)
  client_Data : list call -> list Message
}.

(** A function body: from the stack of deferred calls and the log to how
    it ends, the stack afterwards and the log extended by its calls. *)
Definition M (A : Type) : Type :=
  list call -> list call -> outcome A * list call * list call.

Definition ret {A} (a : A) : M A := fun d h => (Returned a, d, h).

Definition bind {A B} (m : M A) (k : A -> M B) : M B :=
  fun d h =>
    match m d h with
    | (Returned a, d1, h1) => k a d1 h1
    | (Exited code, d1, h1) => (Exited code, d1, h1)
    | (Panicked err, d1, h1) => (Panicked err, d1, h1)
    end.

Notation "x <- m ;; k" := (bind m (fun x => k))
  (at level 100, m at next level, right associativity) : commands_scope.
Notation "m ;;; k" := (bind m (fun _ => k))
  (at level 100, right associativity) : commands_scope.

Local Open Scope commands_scope.

Definition perform {A} (c : call) (answer : list call -> A) : M A :=
  fun d h => (Returned (answer h), d, h ++ [c]).

(** [defer c]: the call goes on top of the stack. *)
Definition defer (c : call) : M unit := fun d h => (Returned tt, c :: d, h).

Definition panic {A} (err : string) : M A := fun d h => (Panicked err, d, h).

(** A function with its body: when the body returns or panics the
    deferred calls are made from the top of the stack down; when the
    process exits they are not. *)
Definition function {A} (body : M A) : list call -> outcome A * list call :=
  fun h =>
    match body [] h with
    | (Exited code, _, h1) => (Exited code, h1)
    | (o, d, h1) => (o, h1 ++ d)
    end.

Definition ended {A} (r : outcome A * list call) : outcome A := r.1.
Definition calls {A} (r : outcome A * list call) : list call := r.2.

(** The text [Help] prints. *)
Definition help_text : string :=
  LF +:+ "Description:" +:+ LF +:+
  "  Issues a build to your nanobox" +:+ LF +:+
  LF +:+ "Usage:" +:+ LF +:+
  "  nanobox build" +:+ LF +:+
  "  nanobox build -v" +:+ LF +:+
  "  nanobox build -r" +:+ LF +:+
  LF +:+ "Options:" +:+ LF +:+
  "  -v, --verbose" +:+ LF +:+
  "    Increase the level of log output from 'info' to 'debug'" +:+ LF +:+
  LF +:+ "  -r, --reset" +:+ LF +:+
  "    Clears cached libraries the project might use" +:+ LF +:+
  "  ".

Definition lost_stream : string :=
  "An unexpected error caused the build stream to disconnect. Your build should continue as normal, and you can see the log output from your dashboard.".

Definition no_logs (kind : string) : string :=
  "Nanobox failed to subscribe to " +:+ kind
  +:+ " logs. Your build will continue as normal, and log output is available on your dashboard.".

Section Functions.

Variable W : World.

Definition Help : M unit := perform (ui_CPrint help_text) (fun _ => tt).

(** [ui.LogFatal(msg, err)]. *)
Definition LogFatal (msg err : string) : M unit :=
  fun d h =>
    match LogFatal_ends W with
    | Some code => (Exited code, d, h ++ [ui_LogFatal msg err])
    | None => (Returned tt, d, h ++ [ui_LogFatal msg err])
    end.

(** [if err != nil { ui.LogFatal(msg, err) }] *)
Definition fatal_if (err : error) (msg : string) : M unit :=
  match err with
  | Some e => LogFatal msg e
  | None => ret tt
  end.

(** [if err != nil { fmt.Printf(stylish.Warning(text)) }] *)
Definition warn_if (err : error) (text : string) : M unit :=
  match err with
  | Some _ => perform (fmt_Printf (stylish_Warning W text)) (fun _ => tt)
  | None => ret tt
  end.

(** The body of [case entry.Model != ""], reached on a model or by
    falling through from the log case: [true] to go on with the next
    message, [false] for [break stream]. *)
Definition on_model (entry : Entry) : M bool :=
  if decide (Model entry = "Build" ∨ Model entry = "build") then
    let got := Unmarshal_Build W (Document entry) in
    fatal_if got.2 "[commands build] json.Unmarshal() failed " ;;;
    if decide (Status got.1 = "compelete") then
      perform (fmt_Printf (stylish_Bullet W
                 ("Build complete... Navigate to " +:+ config_App W
                  +:+ ".nano.dev to view your app."))) (fun _ => tt) ;;;
      ret false
    else if decide (Status got.1 = "errored") then
      perform (fmt_Printf (stylish_Error W "build failed"
                 "Your build failed to... well... build...")) (fun _ => tt) ;;;
      ret false
    else ret true
  else if decide (Model entry = "default") then
    perform (Console_Debug
               "Nanobox has encountered an unknown model (%v), and doesn't know what to do with it..."
               [Model entry]) (fun _ => tt) ;;;
    ret false
  else ret true.

(** One turn of the [stream] loop on the message [msg]: the pointer
    [entry] as the turn leaves it, and whether the loop goes on. Indexing
    an empty [msg.Tags] panics, and so does reading [entry.Log] through
    the nil pointer that decoding a JSON null leaves. *)
Definition on_message (entry : option Entry) (msg : Message) : M (option Entry * bool) :=
  match Tags msg with
  | [] => panic "index out of range"
  | tag :: _ =>
      if decide (tag = "err") then
        perform (fmt_Printf (stylish_Warning W lost_stream)) (fun _ => tt) ;;;
        ret (entry, false)
      else
        let got := Unmarshal_Entry W (Data msg) entry in
        fatal_if got.2 "[commands build] json.Unmarshal() failed" ;;;
        match got.1 with
        | None => panic "invalid memory address or nil pointer dereference"
        | Some entry =>
            if decide (Log entry ≠ "") then
              perform (fmt_Printf (Log entry)) (fun _ => tt) ;;;
              go <- on_model entry ;;
              ret (Some entry, go)
            else if decide (Model entry ≠ "") then
              go <- on_model entry ;;
              ret (Some entry, go)
            else
              perform (Console_Debug
                         "Nanobox has encountered an Entry with neither a 'log' nor 'model' field and doesnt know what to do..."
                         []) (fun _ => tt) ;;;
              ret (Some entry, false)
        end
  end.

(** [for msg := range client.Data], with the one pointer it decodes into. *)
Fixpoint stream (data : list Message) (entry : option Entry) : M unit :=
  match data with
  | [] => ret tt
  | msg :: rest =>
      turn <- on_message entry msg ;;
      if turn.2 : bool then stream rest turn.1 else ret tt
  end.

(** The body of [Run] from the return of [flags.Parse] on. *)
Definition Run_parsed (parsed : Parsed) : M unit :=
  (if usage parsed then Help else ret tt) ;;;
  fatal_if (parse_err parsed) "[commands.destroy] flags.Parse() failed" ;;;
  let fReset := fReset parsed in
  let fVerbose := fVerbose parsed in
  err <- perform (client_Connect (config_Boxfile_IP W) "1445") (on_Connect W) ;;
  fatal_if err "[commands build] client.Connect() failed " ;;;
  defer client_Close ;;;
  perform (printv (stylish_Bullet W "Subscribing to mist...") fVerbose) (fun _ => tt) ;;;
  perform (printv (LF +:+ "   - Subscribing to app logs") fVerbose) (fun _ => tt) ;;;
  buildSub <- perform (client_Subscribe ["job"; "build"])
                      (fun h => on_Subscribe W h ["job"; "build"]) ;;
  warn_if buildSub.2 (no_logs "app") ;;;
  defer (client_Unsubscribe buildSub.1) ;;;
  perform (printv (LF +:+ "   - Subscribing to info logs") fVerbose) (fun _ => tt) ;;;
  infoSub <- perform (client_Subscribe ["log"; "build"; "info"])
                     (fun h => on_Subscribe W h ["log"; "build"; "info"]) ;;
  warn_if infoSub.2 (no_logs "info") ;;;
  defer (client_Unsubscribe infoSub.1) ;;;
  (if fVerbose then
     perform (printv (LF +:+ "   - Subscribing to debug logs") fVerbose) (fun _ => tt) ;;;
     debugSub <- perform (client_Subscribe ["log"; "build"; "debug"])
                         (fun h => on_Subscribe W h ["log"; "build"; "debug"]) ;;
     warn_if debugSub.2 (no_logs "debug") ;;;
     defer (client_Unsubscribe debugSub.1)
   else ret tt) ;;;
  perform (printv ("   [√] SUCCESS" +:+ LF) fVerbose) (fun _ => tt) ;;;
  let path := "http://" +:+ config_Boxfile_IP W +:+ ":1757/builds" in
  let path := if fReset then path +:+ "?reset=true" else path in
  err <- perform (api_DoRawRequest "POST" path)
                 (fun h => on_DoRawRequest W h "POST" path) ;;
  fatal_if err "[commands build] api.DoRawRequest() failed " ;;;
  data <- (fun d h => (Returned (client_Data W h), d, h)) ;;
  stream data (Some {| Log := ""; Model := ""; Document := "" |}).

(** The body of [Run]. *)
Definition Run_body (opts : list string) : M unit :=
  parsed <- perform (flags_Parse opts) (fun h => on_Parse W h opts) ;;
  Run_parsed parsed.

Definition Run (opts : list string) : list call -> outcome unit * list call :=
  function (Run_body opts).

End Functions.

(** The calls [Run] defers. *)
Definition is_cleanup (c : call) : bool :=
  match c with
  | client_Close | client_Unsubscribe _ => true
  | _ => false
  end.

(** A call that neither subscribes nor is one of the deferred calls. *)
Definition quiet (c : call) : bool :=
  match c with
  | client_Close | client_Unsubscribe _ | client_Subscribe _ => false
  | _ => true
  end.

(** [still m]: whatever the stack and the log, [m] leaves the stack of
    deferred calls as it is, however it ends, and the calls it appends are
    quiet. *)
Definition still {A} (m : M A) : Prop :=
  ∀ d h, ∃ cs,
    (m d h).2 = h ++ cs ∧ Forall (λ c, quiet c = true) cs ∧ (m d h).1.2 = d.

(** [calm m]: a body that is still and returns or ends the process; it
    never panics. *)
Definition calm (m : M unit) : Prop :=
  ∀ d h, ∃ q, Forall (λ c, quiet c = true) q ∧
    (m d h = (Returned tt, d, h ++ q) ∨ ∃ code, m d h = (Exited code, d, h ++ q)).

(** A message that the loop takes silently when the pointer before it is
    [entry]: it has a first tag other than "err", decodes without error
    into an entry with no log and a build model, whose document decodes
    without error into a build that is neither "compelete" nor "errored". *)
Definition silent (W : World) (entry : option Entry) (msg : Message) : Prop :=
  (∃ tag tags, Tags msg = tag :: tags ∧ tag ≠ "err") ∧
  let got := Unmarshal_Entry W (Data msg) entry in
  got.2 = None ∧
  ∃ e, got.1 = Some e ∧ Log e = "" ∧
  (Model e = "Build" ∨ Model e = "build") ∧
  let build := Unmarshal_Build W (Document e) in
  build.2 = None ∧ Status build.1 ≠ "compelete" ∧ Status build.1 ≠ "errored".

(** The cleanup calls of a run with subscriptions [b], [i] and, with the
    verbose flag, [dbg], in the order they are made. *)
Definition cleanup_calls (verbose : bool) (b i dbg : Z) : list call :=
  (if verbose then [client_Unsubscribe dbg] else [])
  ++ [client_Unsubscribe i; client_Unsubscribe b; client_Close].

(** [subscribed W h verbose cs b i dbg]: the calls [cs], made after the
    log [h], hold the subscriptions of a run in order (to the build
    updates, to the info logs and, when [verbose], to the debug logs) and
    no other subscription; [b], [i] and [dbg] are the numbers the world
    answered these very calls with, each at the log as it stood when the
    call was made. Without the verbose flag nothing is said of [dbg]. *)
Definition subscribed (W : World) (h : list call) (verbose : bool)
    (cs : list call) (b i dbg : Z) : Prop :=
  ∃ pb pi pd rest,
    Forall (λ c, quiet c = true) pb ∧ Forall (λ c, quiet c = true) pi ∧
    Forall (λ c, quiet c = true) pd ∧ Forall (λ c, quiet c = true) rest ∧
    b = (on_Subscribe W (h ++ pb) ["job"; "build"]).1 ∧
    i = (on_Subscribe W (h ++ pb ++ [client_Subscribe ["job"; "build"]] ++ pi)
           ["log"; "build"; "info"]).1 ∧
    if verbose then
      dbg = (on_Subscribe W
               (h ++ pb ++ [client_Subscribe ["job"; "build"]] ++ pi
                  ++ [client_Subscribe ["log"; "build"; "info"]] ++ pd)
               ["log"; "build"; "debug"]).1 ∧
      cs = pb ++ [client_Subscribe ["job"; "build"]] ++ pi
             ++ [client_Subscribe ["log"; "build"; "info"]] ++ pd
             ++ [client_Subscribe ["log"; "build"; "debug"]] ++ rest
    else
      pd = [] ∧
      cs = pb ++ [client_Subscribe ["job"; "build"]] ++ pi
             ++ [client_Subscribe ["log"; "build"; "info"]] ++ rest.

(** How the body of [Run] ends, from the log [h]: [r] is the outcome, the
    stack of deferred calls and the log. When the process is ended no
    deferred call has been made; otherwise the stack holds the cleanup
    calls of the subscriptions made. *)
Definition finishes (W : World) (h : list call) (verbose : bool)
    (r : outcome unit * list call * list call) : Prop :=
  match r.1.1 with
  | Exited _ => ∃ cs, r.2 = h ++ cs ∧ Forall (λ c, is_cleanup c = false) cs
  | _ => ∃ cs b i dbg,
      subscribed W h verbose cs b i dbg ∧ r.2 = h ++ cs ∧
      r.1.2 = cleanup_calls verbose b i dbg
  end.

(** A world in which nothing fails, [LogFatal] ends the process with code
    1, subscriptions are numbered 1, 2, 3 by their last tag, and the
    stream delivers [data], each message the status of a build or the
    JSON null. *)
Definition quiet_world (flags : Parsed) (request : error) (data : list Message) : World :=
  {| config_Boxfile_IP := "192.168.0.55";
     config_App := "myapp";
     stylish_Bullet := fun s => "+ " +:+ s;
     stylish_Warning := fun s => "! " +:+ s;
     stylish_Error := fun a b => "! " +:+ a +:+ ": " +:+ b;
     LogFatal_ends := Some 1%Z;
     Unmarshal_Entry := fun data _ =>
       if decide (data = "null") then (None, None)
       else (Some {| Log := ""; Model := "build"; Document := data |}, None);
     Unmarshal_Build := fun doc => ({| ID := "b1"; Status := doc |}, None);
     on_Parse := fun _ _ => flags;
     on_Connect := fun _ => None;
     on_Subscribe := fun _ tags =>
       (match last tags with
        | Some "build" => 1 | Some "info" => 2 | _ => 3
        end%Z, None);
     on_DoRawRequest := fun _ _ _ => request;
     client_Data := fun _ => data |}.

Definition plain_flags : Parsed :=
  {| fReset := false; fVerbose := false; parse_err := None; usage := false |}.

Definition verbose_flags : Parsed :=
  {| fReset := true; fVerbose := true; parse_err := None; usage := false |}.

End commands.

(** ** Running the monad *)

Lemma bind_run {A B} (m : Saga A) (k : A -> Saga B) s h :
  bind m k s h = k (result (m s h)) (after (m s h)) (log (m s h)).
Proof.
  unfold bind, result, after, log. destruct (m s h) as [[a s1] h1]; reflexivity.
Qed.

Lemma since_app h cs : since h (h ++ cs) = cs.
Proof. unfold since. by rewrite drop_app_length. Qed.

Section Cleanup.

Variable W : World.

Lemma call_cleanFunc_run f s h :
  call_cleanFunc W f s h
  = (undo_answer W h (undo_call W s f), s, h ++ [undo_call W s f]).
Proof. destruct f; reflexivity. Qed.

(** The loop of [clean] leaves the struct alone and calls the closures from
    the front of the list: a number [n] of them, all of them when it
    returns nil, and up to the first one that answers an error (which it
    returns) otherwise. *)
Lemma range_cleanFuncs_run fs s h :
  after (range_cleanFuncs W fs s h) = s ∧
  ∃ n, n ≤ length fs ∧
    log (range_cleanFuncs W fs s h) = h ++ map (undo_call W s) (take n fs) ∧
    (∀ i f, fs !! i = Some f → S i < n →
       undo_answer W (h ++ map (undo_call W s) (take i fs)) (undo_call W s f) = None) ∧
    match result (range_cleanFuncs W fs s h) with
    | None => n = length fs
    | Some e =>
        ∃ m f, n = S m ∧ fs !! m = Some f ∧
          undo_answer W (h ++ map (undo_call W s) (take m fs)) (undo_call W s f) = Some e
    end.
Proof.
  revert h. induction fs as [|f fs IH]; intros h.
  - split; [reflexivity|]. exists 0. cbn. rewrite app_nil_r.
    repeat split; try lia; intros i f Hl; by rewrite lookup_nil in Hl.
  - cbn [range_cleanFuncs]. rewrite bind_run, call_cleanFunc_run.
    cbn [result after log fst snd].
    destruct (undo_answer W h (undo_call W s f)) as [e|] eqn:Hans.
    + split; [reflexivity|]. exists 1. cbn.
      repeat split; try lia.
      exists 0, f. cbn. rewrite app_nil_r. auto.
    + destruct (IH (h ++ [undo_call W s f])) as [Hs [n [Hn [Hc [Hpre Hres]]]]].
      split; [exact Hs|]. exists (S n). cbn [length take map].
      repeat split.
      * lia.
      * rewrite Hc, <- app_assoc. reflexivity.
      * intros [|i] g Hl Hi; cbn in Hl.
        -- injection Hl as <-. cbn. rewrite app_nil_r. exact Hans.
        -- cbn [take map]. replace (h ++ undo_call W s f :: map (undo_call W s) (take i fs))
             with ((h ++ [undo_call W s f]) ++ map (undo_call W s) (take i fs))
             by (rewrite <- app_assoc; reflexivity).
           apply Hpre; [exact Hl | lia].
      * destruct (result (range_cleanFuncs W fs s (h ++ [undo_call W s f]))) as [e|].
        -- destruct Hres as [m [g [-> [Hl Ha]]]].
           exists (S m), g. repeat split; [exact Hl|].
           cbn [take map]. rewrite <- app_assoc in Ha. exact Ha.
        -- by rewrite Hres.
Qed.

End Cleanup.

(** ** What a method may do *)

Section Closure.

Context {A B : Type} (P : call -> Prop).

Lemma made_ret (a : A) : made P (ret a).
Proof. intros s h. exists []. by rewrite app_nil_r. Qed.

Lemma made_self : made P self.
Proof. intros s h. exists []. by rewrite app_nil_r. Qed.

Lemma made_update f : made P (update f).
Proof. intros s h. exists []. by rewrite app_nil_r. Qed.

Lemma made_perform c (answer : list call -> A) : P c → made P (perform c answer).
Proof. intros Hc s h. exists [c]. split; [reflexivity|]. by constructor. Qed.

Lemma made_bind (m : Saga A) (k : A -> Saga B) :
  made P m → (∀ a, made P (k a)) → made P (bind m k).
Proof.
  intros Hm Hk s h. rewrite bind_run.
  destruct (Hm s h) as [c1 [E1 F1]].
  destruct (Hk (result (m s h)) (after (m s h)) (log (m s h))) as [c2 [E2 F2]].
  exists (c1 ++ c2). split.
  - by rewrite E2, E1, app_assoc.
  - by apply Forall_app.
Qed.

Context {C : Type} (f : serviceSetup -> C).

Lemma keeps_ret (a : A) : keeps f (ret a).
Proof. by intros s h. Qed.

Lemma keeps_self : keeps f self.
Proof. by intros s h. Qed.

Lemma keeps_update g : (∀ s, f (g s) = f s) → keeps f (update g).
Proof. intros Hg s h. apply Hg. Qed.

Lemma keeps_perform c (answer : list call -> A) : keeps f (perform c answer).
Proof. by intros s h. Qed.

Lemma keeps_bind (m : Saga A) (k : A -> Saga B) :
  keeps f m → (∀ a, keeps f (k a)) → keeps f (bind m k).
Proof.
  intros Hm Hk s h. rewrite bind_run.
  by rewrite Hk, Hm.
Qed.

End Closure.

Lemma made_weaken {A} (P Q : call -> Prop) (m : Saga A) :
  (∀ c, P c → Q c) → made P m → made Q m.
Proof.
  intros HPQ Hm s h. destruct (Hm s h) as [cs [E F]].
  exists cs. split; [exact E|]. eapply Forall_impl; eauto.
Qed.

(** Walks through a method's body, one bind at a time. *)
Ltac walk :=
  repeat first
    [ apply made_ret | apply made_self | apply made_update
    | apply made_perform; by (repeat split)
    | apply made_bind; [|intros ?]
    | apply keeps_ret | apply keeps_self | apply keeps_perform
    | apply keeps_update; by intros []
    | apply keeps_bind; [|intros ?]
    | progress cbv zeta
    | match goal with
      | |- made _ (match ?x with _ => _ end) => destruct x
      | |- keeps _ (match ?x with _ => _ end) => destruct x
      end ].

Section Steps.

Variable W : World.

Lemma set_passwords_made users : made forward_call (set_passwords W users).
Proof. induction users; cbn [set_passwords]; walk. exact IHusers. Qed.

Lemma set_passwords_keeps users : keeps id (set_passwords W users).
Proof. induction users; cbn [set_passwords]; walk. exact IHusers. Qed.

Lemma loadService_made : made forward_call (loadService W).
Proof. unfold loadService. walk. Qed.

Lemma downloadImage_made : made forward_call (downloadImage W).
Proof. unfold downloadImage. walk. Qed.

Lemma reserveIps_made : made forward_call (reserveIps W).
Proof. unfold reserveIps. walk. Qed.

Lemma launchContainer_made : made forward_call (launchContainer W).
Proof. unfold launchContainer. walk. Qed.

Lemma attachNetwork_made : made forward_call (attachNetwork W).
Proof. unfold attachNetwork. walk. Qed.

Lemma planService_made : made forward_call (planService W).
Proof. unfold planService. walk. Qed.

Lemma addEnvVars_made : made forward_call (addEnvVars W).
Proof. unfold addEnvVars. walk. Qed.

Lemma persistService_made :
  made (λ c, is_undo c = false) (persistService W).
Proof.
  unfold persistService. walk.
  eapply made_weaken; [|apply set_passwords_made]. by intros c [? ?].
Qed.

Lemma loadService_keeps_fail : keeps fail (loadService W).
Proof. unfold loadService. walk. Qed.

Lemma downloadImage_keeps : keeps id (downloadImage W).
Proof. unfold downloadImage. walk. Qed.

Lemma reserveIps_keeps_fail : keeps fail (reserveIps W).
Proof. unfold reserveIps. walk. Qed.

Lemma launchContainer_keeps_fail : keeps fail (launchContainer W).
Proof. unfold launchContainer. walk. Qed.

Lemma attachNetwork_keeps_fail : keeps fail (attachNetwork W).
Proof. unfold attachNetwork. walk. Qed.

Lemma planService_keeps_fail : keeps fail (planService W).
Proof. unfold planService. walk. Qed.

Lemma addEnvVars_keeps : keeps id (addEnvVars W).
Proof. unfold addEnvVars. walk. Qed.

End Steps.

(** ** The shape of [Process] *)

Lemma keeps_id {A B} (f : serviceSetup -> B) (m : Saga A) : keeps id m → keeps f m.
Proof. intros Hm s h. exact (f_equal f (Hm s h)). Qed.

Section Shape.

Variable W : World.

Lemma step_run m rest s h :
  step m rest s h =
  match result (m s h) with
  | Some e => (Some e, with_fail true (after (m s h)), log (m s h))
  | None => rest (after (m s h)) (log (m s h))
  end.
Proof.
  unfold step. rewrite bind_run. by destruct (result (m s h)).
Qed.

Lemma clean_run s h :
  clean W s h = if fail s then range_cleanFuncs W (cleanFuncs s) s h else (None, s, h).
Proof. unfold clean. rewrite bind_run. cbn. by destruct (fail s). Qed.

Lemma Process_run s h :
  Process W s h =
  (result (Process_steps W s (h ++ [header W s])),
   after (clean W (after (Process_steps W s (h ++ [header W s])))
                  (log (Process_steps W s (h ++ [header W s])))),
   log (clean W (after (Process_steps W s (h ++ [header W s])))
                (log (Process_steps W s (h ++ [header W s]))))).
Proof.
  unfold Process, defer.
  repeat (rewrite bind_run; cbn [self perform ret result after log fst snd]).
  reflexivity.
Qed.


Lemma step_tracks m rest : keeps fail m → tracks rest → tracks (step m rest).
Proof.
  intros Hm Hr s h. rewrite step_run.
  destruct (result (m s h)) eqn:E; cbn.
  - reflexivity.
  - rewrite Hr. by rewrite (Hm s h).
Qed.

Lemma persistService_keeps_fail : keeps fail (persistService W).
Proof.
  unfold persistService. walk.
  apply keeps_id, set_passwords_keeps.
Qed.


Lemma Process_steps_tracks : tracks (Process_steps W).
Proof.
  unfold Process_steps.
  apply step_tracks; [apply loadService_keeps_fail|].
  intros s h. rewrite bind_run. cbn [self result after log fst snd].
  destruct (decide _); [reflexivity|].
  revert s n h. intros s _.
  repeat (apply step_tracks;
          [first [ apply persistService_keeps_fail | apply reserveIps_keeps_fail
                 | apply launchContainer_keeps_fail | apply attachNetwork_keeps_fail
                 | apply planService_keeps_fail
                 | apply keeps_id, downloadImage_keeps
                 | apply keeps_id, addEnvVars_keeps ]|]).
  by intros ? ?.
Qed.

End Shape.

(** ** Loading, resuming, constructing *)

Ltac exec :=
  repeat (rewrite bind_run; cbn [self update perform ret result after log fst snd]).

Section Load.

Variable W : World.

Lemma loadService_run s h :
  loadService W s h =
  (None,
   with_service (if decide (models.State (loaded W s h).1 = "")
                 then set_State "initialized" (loaded W s h).1
                 else (loaded W s h).1) s,
   h ++ [data_Get (util_AppName W) (index (processor.Meta (control s)) "name")]).
Proof.
  unfold loadService, loaded. exec.
  cbn [with_service service].
  destruct (decide _); exec; reflexivity.
Qed.

Lemma loadService_result s h : result (loadService W s h) = None.
Proof. by rewrite loadService_run. Qed.



End Load.

(** C7. A request whose metadata lacks [name] or lacks [image] is refused
    with the error "missing image or name": no saga is built, the metadata
    map is left as it was and no call is made. A request with a name and an
    image and no [label] yields a saga whose metadata has [label] equal to
    [name], again without any call. *)
Theorem serviceSetupFunc_validates (ctl : processor.ProcessControl) (h : list call) :
  (processor.Meta ctl !! "name" = None ∨ processor.Meta ctl !! "image" = None →
   serviceSetupFunc ctl h
   = ((None, Some "missing image or name"), processor.Meta ctl, h)) ∧
  (index (processor.Meta ctl) "name" ≠ "" →
   index (processor.Meta ctl) "image" ≠ "" →
   processor.Meta ctl !! "label" = None →
   ∃ s, serviceSetupFunc ctl h
        = ((Some s, None),
           <["label" := index (processor.Meta ctl) "name"]> (processor.Meta ctl), h) ∧
        index (processor.Meta (control s)) "label"
        = index (processor.Meta ctl) "name" ∧
        index (processor.Meta (control s)) "name"
        = index (processor.Meta ctl) "name" ∧
        fail s = false ∧ cleanFuncs s = []).
Proof.
  split.
  - intros Hmiss. unfold serviceSetupFunc.
    destruct (decide _) as [_|n]; [reflexivity|].
    destruct n. unfold index. destruct Hmiss as [-> | ->]; auto.
  - intros Hname Himage Hlabel. unfold serviceSetupFunc.
    destruct (decide _) as [[?|?]|_]; [done|done|].
    assert (El : index (processor.Meta ctl) "label" = "")
      by (unfold index; by rewrite Hlabel).
    destruct (decide _) as [_|n]; [|done].
    eexists. split; [reflexivity|]. cbn.
    repeat split.
    + unfold index. by rewrite lookup_insert_eq.
    + unfold index. by rewrite lookup_insert_ne.
Qed.

(** ** Reserving addresses *)

Section Reserve.

Variable W : World.

Lemma downloadImage_keeps_all s h : after (downloadImage W s h) = s.
Proof. exact (downloadImage_keeps W s h). Qed.

Lemma loadService_keeps_cleanFuncs : keeps cleanFuncs (loadService W).
Proof. unfold loadService. walk. Qed.

(** [reserveIps] case by case: what the two pools answer decides the
    result, the addresses stored and the closures pushed. *)
Lemma reserveIps_run s h :
  match (on_ReserveLocal W h).2,
        (on_ReserveGlobal W (h ++ [ip_control_ReserveLocal])).2 with
  | Some e, _ =>
      result (reserveIps W s h) = Some e ∧
      cleanFuncs (after (reserveIps W s h)) = cleanFuncs s ∧
      log (reserveIps W s h) = h ++ [ip_control_ReserveLocal]
  | None, Some e =>
      result (reserveIps W s h) = Some e ∧
      localIP (after (reserveIps W s h)) = (on_ReserveLocal W h).1 ∧
      fail (after (reserveIps W s h)) = fail s ∧
      cleanFuncs (after (reserveIps W s h)) = cleanFuncs s ++ [ReturnLocalIP] ∧
      log (reserveIps W s h) = h ++ [ip_control_ReserveLocal; ip_control_ReserveGlobal]
  | None, None =>
      result (reserveIps W s h) = None ∧
      localIP (after (reserveIps W s h)) = (on_ReserveLocal W h).1 ∧
      globalIP (after (reserveIps W s h))
        = (on_ReserveGlobal W (h ++ [ip_control_ReserveLocal])).1 ∧
      cleanFuncs (after (reserveIps W s h))
        = cleanFuncs s ++ [ReturnLocalIP; ReturnGlobalIP] ∧
      log (reserveIps W s h) = h ++ [ip_control_ReserveLocal; ip_control_ReserveGlobal]
  end.
Proof.
  unfold reserveIps. exec.
  destruct (on_ReserveLocal W h).2 as [e|]; exec; [done|].
  destruct (on_ReserveGlobal W (h ++ [ip_control_ReserveLocal])).2 as [e|]; exec;
    cbn; rewrite <- ?app_assoc; done.
Qed.

(** C4. In [reserveIps] every address obtained has its returning closure
    pushed whatever happens to the acquisition after it: when the local
    pool answers and the global pool refuses, the step fails with exactly
    the closure for the local address pushed. And in a saga built with no
    closures, whose load finds state "initialized" and whose image pull
    succeeds, such a refusal makes [Process] return the pool's error and
    end its log with the return of the local address just reserved. *)
Theorem reserveIps_registers_returns (s : serviceSetup) (h : list call) :
  match (on_ReserveLocal W h).2,
        (on_ReserveGlobal W (h ++ [ip_control_ReserveLocal])).2 with
  | Some e, _ =>
      result (reserveIps W s h) = Some e ∧
      cleanFuncs (after (reserveIps W s h)) = cleanFuncs s
  | None, Some e =>
      result (reserveIps W s h) = Some e ∧
      localIP (after (reserveIps W s h)) = (on_ReserveLocal W h).1 ∧
      cleanFuncs (after (reserveIps W s h)) = cleanFuncs s ++ [ReturnLocalIP]
  | None, None =>
      result (reserveIps W s h) = None ∧
      localIP (after (reserveIps W s h)) = (on_ReserveLocal W h).1 ∧
      globalIP (after (reserveIps W s h))
        = (on_ReserveGlobal W (h ++ [ip_control_ReserveLocal])).1 ∧
      cleanFuncs (after (reserveIps W s h))
        = cleanFuncs s ++ [ReturnLocalIP; ReturnGlobalIP]
  end ∧
  (let r1 := loadService W s (h ++ [header W s]) in
   let r2 := downloadImage W (after r1) (log r1) in
   cleanFuncs s = [] →
   models.State (service (after r1)) = "initialized" →
   result r2 = None →
   (on_ReserveLocal W (log r2)).2 = None →
   ∀ e, (on_ReserveGlobal W (log r2 ++ [ip_control_ReserveLocal])).2 = Some e →
   result (Process W s h) = Some e ∧
   log (Process W s h)
     = log r2 ++ [ip_control_ReserveLocal; ip_control_ReserveGlobal;
                  ip_control_ReturnIP (on_ReserveLocal W (log r2)).1]).
Proof.
  split.
  - pose proof (reserveIps_run s h) as H.
    destruct (on_ReserveLocal W h).2; [tauto|].
    destruct (on_ReserveGlobal W _).2; tauto.
  - intros r1 r2 Hnone Hstate Hpull Hlocal e Hglobal.
    pose proof (reserveIps_run (after r2) (log r2)) as H3.
    rewrite Hlocal, Hglobal in H3.
    destruct H3 as [Hres [Hip [_ [Hfs Hlog]]]].
    set (r3 := reserveIps W (after r2) (log r2)) in *.
    assert (E : Process_steps W s (h ++ [header W s])
                = (Some e, with_fail true (after r3), log r3)).
    { unfold Process_steps. rewrite step_run.
      rewrite loadService_result.
      exec. fold r1. destruct (decide _) as [n|_]; [by destruct n|].
      rewrite step_run. fold r2. rewrite Hpull.
      rewrite step_run. fold r3. by rewrite Hres. }
    rewrite Process_run, E. cbn [result after log fst snd].
    split; [reflexivity|].
    rewrite clean_run. cbn [fail with_fail cleanFuncs].
    rewrite Hfs. unfold r2 at 1. rewrite downloadImage_keeps_all.
    unfold r1 at 1. rewrite loadService_keeps_cleanFuncs, Hnone.
    cbn [app range_cleanFuncs]. rewrite bind_run, call_cleanFunc_run.
    cbn [result after log fst snd undo_call localIP with_fail].
    rewrite Hip, Hlog, <- app_assoc.
    by destruct (undo_answer W _ _).
Qed.

End Reserve.

(** ** What the steps push *)

Section Pushes.

Variable W : World.




Lemma attachNetwork_keeps_container : keeps container (attachNetwork W).
Proof. unfold attachNetwork. walk. Qed.





End Pushes.

(** ** Compensation *)

Section Compensation.

Variable W : World.

Lemma Process_result s h :
  result (Process W s h) = result (Process_steps W s (h ++ [header W s])).
Proof. by rewrite Process_run. Qed.

Lemma clean_keeps_all s h : after (clean W s h) = s.
Proof.
  rewrite clean_run. destruct (fail s); [|reflexivity].
  apply range_cleanFuncs_run.
Qed.


End Compensation.

(** ** Persisting *)

Lemma service_puts_app a b : service_puts (a ++ b) = service_puts a + service_puts b.
Proof. unfold service_puts. by rewrite List.filter_app, length_app. Qed.

Lemma service_puts_none cs :
  Forall (λ c, is_service_put c = false) cs → service_puts cs = 0.
Proof.
  unfold service_puts. induction 1 as [|c cs Hc _ IH]; [reflexivity|].
  cbn. by rewrite Hc.
Qed.

Lemma puts_since_made {A} (m : Saga A) h0 k s h :
  made (λ c, is_service_put c = false) m →
  puts_since h0 k h → puts_since h0 k (log (m s h)).
Proof.
  intros Hm [cs [-> Hk]]. destruct (Hm s (h0 ++ cs)) as [cs' [-> Hq]].
  exists (cs ++ cs'). split; [by rewrite app_assoc|].
  rewrite service_puts_app, (service_puts_none cs' Hq). lia.
Qed.

Lemma puts_since_count h0 k l : puts_since h0 k l → service_puts (since h0 l) = k.
Proof. intros [cs [-> Hk]]. by rewrite since_app. Qed.

Lemma forward_quiet {A} (m : Saga A) :
  made forward_call m → made (λ c, is_service_put c = false) m.
Proof. apply made_weaken. by intros c [_ H]. Qed.

Section Persist.

Variable W : World.

Lemma clean_made : made (λ c, is_service_put c = false) (clean W).
Proof.
  intros s h. rewrite clean_run. destruct (fail s).
  - destruct (range_cleanFuncs_run W (cleanFuncs s) s h) as [_ [n [_ [-> _]]]].
    eexists. split; [reflexivity|].
    apply Forall_map, Forall_forall. by intros [] _.
  - exists []. by rewrite app_nil_r.
Qed.

Lemma persistService_run s h :
  match (parsed W s).2 with
  | Some e =>
      result (persistService W s h) = Some ("persistService:" +:+ e) ∧
      log (persistService W s h) = h
  | None =>
      ∃ cs, log (persistService W s h) = h ++ cs ∧ service_puts cs = 1
  end.
Proof.
  unfold persistService, parsed. exec. cbn [models.Plan].
  destruct (json_Unmarshal W (plan s) (models.Plan (service s))).2 as [e|]; exec.
  - done.
  - match goal with
    | |- context [set_passwords W ?us ?s0 h] =>
        destruct (set_passwords_made W us s0 h) as [cs [E F]]; rewrite E
    end.
    eexists (cs ++ [_]). split.
    + match goal with |- context [on_Put W ?a ?b ?c ?d] => destruct (on_Put W a b c d) end;
        cbn; by rewrite <- app_assoc.
    + rewrite service_puts_app, service_puts_none; [reflexivity|].
      eapply Forall_impl; [exact F|]. by intros c [_ H].
Qed.

Lemma Process_cases s h :
  (¬ preceding_succeed W s h ∧ puts_since h 0 (log (Process W s h))) ∨
  (preceding_succeed W s h ∧
   match (parsed W (after (before_persist W s h))).2 with
   | Some e =>
       result (Process W s h) = Some ("persistService:" +:+ e) ∧
       puts_since h 0 (log (Process W s h))
   | None => puts_since h 1 (log (Process W s h))
   end).
Proof.
  unfold preceding_succeed, before_persist. cbv zeta.
  rewrite Process_run. cbn [result after log fst snd].
  set (r1 := loadService W s (h ++ [header W s])).
  set (r2 := downloadImage W (after r1) (log r1)).
  set (r3 := reserveIps W (after r2) (log r2)).
  set (r4 := launchContainer W (after r3) (log r3)).
  set (r5 := attachNetwork W (after r4) (log r4)).
  set (r6 := planService W (after r5) (log r5)).
  assert (Q0 : puts_since h 0 (h ++ [header W s])) by (by exists [header W s]).
  assert (Q1 : puts_since h 0 (log r1))
    by (apply puts_since_made; [apply forward_quiet, loadService_made | exact Q0]).
  assert (Q2 : puts_since h 0 (log r2))
    by (apply puts_since_made; [apply forward_quiet, downloadImage_made | exact Q1]).
  assert (Q3 : puts_since h 0 (log r3))
    by (apply puts_since_made; [apply forward_quiet, reserveIps_made | exact Q2]).
  assert (Q4 : puts_since h 0 (log r4))
    by (apply puts_since_made; [apply forward_quiet, launchContainer_made | exact Q3]).
  assert (Q5 : puts_since h 0 (log r5))
    by (apply puts_since_made; [apply forward_quiet, attachNetwork_made | exact Q4]).
  assert (Q6 : puts_since h 0 (log r6))
    by (apply puts_since_made; [apply forward_quiet, planService_made | exact Q5]).
  assert (C : ∀ k s' h', puts_since h k h' → puts_since h k (log (clean W s' h')))
    by (intros k s' h'; apply puts_since_made, clean_made).
  unfold Process_steps. rewrite step_run. fold r1.
  destruct (result r1) as [e|] eqn:E1.
  { left. split; [intros H; decompose [and] H; discriminate | by apply C]. }
  exec. destruct (decide _) as [Hst|Hst].
  { left. split; [intros H; decompose [and] H; contradiction | by apply C]. }
  apply dec_stable in Hst.
  rewrite step_run. fold r2. destruct (result r2) as [e|] eqn:E2.
  { left. split; [intros H; decompose [and] H; discriminate | by apply C]. }
  rewrite step_run. fold r3. destruct (result r3) as [e|] eqn:E3.
  { left. split; [intros H; decompose [and] H; discriminate | by apply C]. }
  rewrite step_run. fold r4. destruct (result r4) as [e|] eqn:E4.
  { left. split; [intros H; decompose [and] H; discriminate | by apply C]. }
  rewrite step_run. fold r5. destruct (result r5) as [e|] eqn:E5.
  { left. split; [intros H; decompose [and] H; discriminate | by apply C]. }
  rewrite step_run. fold r6. destruct (result r6) as [e|] eqn:E6.
  { left. split; [intros H; decompose [and] H; discriminate | by apply C]. }
  right. split; [done|].
  rewrite step_run.
  pose proof (persistService_run (after r6) (log r6)) as H7.
  destruct (parsed W (after r6)).2 as [e|].
  - destruct H7 as [-> Hlog]. cbn [result after log fst snd].
    split; [reflexivity|]. apply C. by rewrite Hlog.
  - destruct H7 as [cs [Hlog Hone]].
    assert (Q7 : puts_since h 1 (log (persistService W (after r6) (log r6)))).
    { destruct Q6 as [cs6 [E Hz]]. exists (cs6 ++ cs). split.
      - by rewrite Hlog, E, app_assoc.
      - rewrite service_puts_app. lia. }
    destruct (result (persistService W (after r6) (log r6))); [by apply C|].
    rewrite step_run.
    assert (Q8 : puts_since h 1 (log (addEnvVars W
                  (after (persistService W (after r6) (log r6)))
                  (log (persistService W (after r6) (log r6))))))
      by (apply puts_since_made; [apply forward_quiet, addEnvVars_made | exact Q7]).
    destruct (result (addEnvVars W _ _)); by apply C.
Qed.

(** C5. Whatever the world, the struct and the log, a run of [Process]
    writes a Service record at most once. If it writes one, the six steps
    before [persistService] all returned nil (the load having found state
    "initialized") and the plan parsed. If they all returned nil and the
    plan does not parse, [Process] returns the parse error prefixed with
    "persistService:" and writes no Service record. *)
Theorem Service_written_once_at_the_end (s : serviceSetup) (h : list call) :
  service_puts (since h (log (Process W s h))) ≤ 1 ∧
  (service_puts (since h (log (Process W s h))) = 1 →
     preceding_succeed W s h ∧ (parsed W (after (before_persist W s h))).2 = None) ∧
  (∀ e, preceding_succeed W s h → (parsed W (after (before_persist W s h))).2 = Some e →
     result (Process W s h) = Some ("persistService:" +:+ e) ∧
     service_puts (since h (log (Process W s h))) = 0).
Proof.
  destruct (Process_cases s h) as [[Hno Hz]|[Hyes Hp]].
  - apply puts_since_count in Hz. rewrite Hz.
    split; [lia|]. split; [discriminate|]. intros e Hyes. contradiction.
  - destruct (parsed W (after (before_persist W s h))).2 as [e|].
    + destruct Hp as [Hres Hz]. apply puts_since_count in Hz. rewrite Hz.
      split; [lia|]. split; [discriminate|]. by intros e' _ [= <-].
    + apply puts_since_count in Hp. rewrite Hp.
      split; [lia|]. split; [done|]. intros e' _ ?. discriminate.
Qed.

End Persist.

(** ** Environment keys *)

Lemma string_length_app (a b : string) :
  String.length (a +:+ b) = String.length a + String.length b.
Proof.
  induction a as [|c a IH]; [reflexivity|].
  change (S (String.length (a +:+ b)) = S (String.length a + String.length b)).
  by rewrite IH.
Qed.

(** No tag of length four is a user's password suffix. *)
Lemma tag_not_pass (tag x : string) :
  String.length tag = 4 → tag ≠ x +:+ "_PASS".
Proof.
  intros Hlen E. apply (f_equal String.length) in E.
  rewrite string_length_app, Hlen in E. cbn in E. lia.
Qed.

Lemma USERS_not_pass (x : string) : "USERS" ≠ x +:+ "_PASS".
Proof.
  intros E. destruct x as [|c x].
  - discriminate.
  - apply (f_equal String.length) in E.
    rewrite string_length_app in E. cbn in E. lia.
Qed.

(** Keys of the form [prefix_X_PASS] differ from the four fixed keys. *)
Lemma pass_key_fresh (p x tag : string) :
  tag = "HOST" ∨ tag = "USER" ∨ tag = "PASS" ∨ tag = "USERS" →
  p +:+ "_" +:+ x +:+ "_PASS" ≠ p +:+ "_" +:+ tag.
Proof.
  intros Htag E. apply (inj (String.app p)) in E.
  change (String "_" (x +:+ "_PASS") = String "_" tag) in E.
  injection E as E. symmetry in E. revert E.
  destruct Htag as [-> | [-> | [-> | ->]]];
    first [ apply USERS_not_pass | by apply tag_not_pass ].
Qed.

Lemma fixed_keys_differ (p a b : string) :
  a ≠ b → p +:+ a ≠ p +:+ b.
Proof. intros Hab E. by apply (inj (String.app p)) in E. Qed.

(** ** Writes to the table *)

Lemma apply_writes_app e ws1 ws2 :
  apply_writes e (ws1 ++ ws2) = apply_writes (apply_writes e ws1) ws2.
Proof. apply foldl_app. Qed.

(** After a run of assignments a key holds what the last assignment to it
    stored, or what it held before when there was none. *)
Lemma apply_writes_lookup (e : gmap string string) ws k :
  apply_writes e ws !! k =
  match last (filter (λ kv, kv.1 = k) ws) with
  | Some kv => Some kv.2
  | None => e !! k
  end.
Proof.
  induction ws as [|w ws IH] using rev_ind; [reflexivity|].
  rewrite apply_writes_app, filter_app, last_app. cbn [apply_writes foldl].
  rewrite filter_cons, filter_nil.
  destruct (decide (w.1 = k)) as [<-|Hne]; cbn [last].
  - by rewrite lookup_insert_eq.
  - by rewrite lookup_insert_ne.
Qed.

Lemma last_filter_app {A} (P : A → Prop) `{!∀ x, Decision (P x)} l1 l2 :
  last (filter P (l1 ++ l2)) =
  match last (filter P l2) with
  | Some y => Some y
  | None => last (filter P l1)
  end.
Proof. by rewrite filter_app, last_app. Qed.

Section Environment.

Variable W : World.

Lemma range_Users_writes prefix d us users env :
  range_Users W prefix d us users env
  = (users ++ map models.Username us,
     apply_writes env (flat_map (written W prefix d) us)).
Proof.
  revert users env. induction us as [|u us IH]; intros users env.
  - cbn. by rewrite app_nil_r.
  - cbn [range_Users]. rewrite IH. cbn [map flat_map].
    rewrite <- app_assoc. f_equal.
    rewrite apply_writes_app. f_equal.
    unfold written, is_default, pass_key.
    by destruct (decide _).
Qed.

Lemma project_assignments svc e :
  project W svc e = apply_writes e (assignments W svc).
Proof.
  unfold project, assignments. cbv zeta.
  rewrite range_Users_writes. cbn [app].
  rewrite length_map.
  change (?a :: ?l ++ ?r) with ((a :: l) ++ r). rewrite apply_writes_app.
  by destruct (decide _).
Qed.

End Environment.

(** ** Reading the table after the projection *)

Lemma last_filter_flat_map {A} (g : A → list (string * string)) (Q : A → Prop)
    `{!∀ x, Decision (Q x)} (v : A → string * string) (k : string) (l : list A) :
  (∀ x, filter (λ kv, kv.1 = k) (g x) = if decide (Q x) then [v x] else []) →
  last (filter (λ kv, kv.1 = k) (flat_map g l)) = v <$> last (filter Q l).
Proof.
  intros Hg. induction l as [|x l IH]; [reflexivity|].
  cbn [flat_map]. rewrite last_filter_app, IH, Hg, filter_cons.
  destruct (decide (Q x)); cbn [last].
  - rewrite last_cons. by destruct (last (filter Q l)).
  - by destruct (last (filter Q l)).
Qed.

Lemma last_filter_none {A} (Q : A → Prop) `{!∀ x, Decision (Q x)} (l : list A) :
  (∀ x, x ∈ l → ¬ Q x) → last (filter Q l) = None.
Proof.
  intros Hall. induction l as [|x l IH]; [reflexivity|].
  rewrite filter_cons_False; [|apply Hall; left].
  apply IH. intros y Hy. apply Hall. by right.
Qed.

Section Lookup.

Variable W : World.
Variables prefix d : string.

Lemma pass_key_not_fixed u tag :
  tag = "HOST" ∨ tag = "USER" ∨ tag = "PASS" ∨ tag = "USERS" →
  pass_key W prefix u ≠ prefix +:+ "_" +:+ tag.
Proof. apply pass_key_fresh. Qed.

Lemma written_USER u :
  filter (λ kv, kv.1 = prefix +:+ "_USER") (written W prefix d u)
  = if decide (is_default d u) then [(prefix +:+ "_USER", models.Username u)] else [].
Proof.
  unfold written. rewrite filter_cons_False
    by (apply (pass_key_not_fixed u "USER"); tauto).
  destruct (decide (is_default d u)); [|reflexivity].
  rewrite filter_cons_True by reflexivity.
  rewrite filter_cons_False; [reflexivity|].
  cbn. by apply fixed_keys_differ.
Qed.

Lemma written_PASS u :
  filter (λ kv, kv.1 = prefix +:+ "_PASS") (written W prefix d u)
  = if decide (is_default d u) then [(prefix +:+ "_PASS", models.Password u)] else [].
Proof.
  unfold written. rewrite filter_cons_False
    by (apply (pass_key_not_fixed u "PASS"); tauto).
  destruct (decide (is_default d u)); [|reflexivity].
  rewrite filter_cons_False by (cbn; by apply fixed_keys_differ).
  by rewrite filter_cons_True.
Qed.

Lemma written_other u k :
  k ≠ prefix +:+ "_USER" → k ≠ prefix +:+ "_PASS" →
  filter (λ kv, kv.1 = k) (written W prefix d u)
  = if decide (pass_key W prefix u = k)
    then [(pass_key W prefix u, models.Password u)] else [].
Proof.
  intros HU HP. unfold written.
  assert (E : filter (λ kv : string * string, kv.1 = k)
                (if decide (is_default d u)
                 then [(prefix +:+ "_USER", models.Username u);
                       (prefix +:+ "_PASS", models.Password u)]
                 else []) = []).
  { destruct (decide _); [|reflexivity].
    rewrite !filter_cons_False; [reflexivity| |];
      cbn [fst]; intros <-; first [by apply HU | by apply HP]. }
  rewrite filter_cons, E. reflexivity.
Qed.

Lemma flat_USER us :
  last (filter (λ kv, kv.1 = prefix +:+ "_USER") (flat_map (written W prefix d) us))
  = (λ u, (prefix +:+ "_USER", models.Username u)) <$> last (filter (is_default d) us).
Proof. apply last_filter_flat_map, written_USER. Qed.

Lemma flat_PASS us :
  last (filter (λ kv, kv.1 = prefix +:+ "_PASS") (flat_map (written W prefix d) us))
  = (λ u, (prefix +:+ "_PASS", models.Password u)) <$> last (filter (is_default d) us).
Proof. apply last_filter_flat_map, written_PASS. Qed.

Lemma flat_other us k :
  k ≠ prefix +:+ "_USER" → k ≠ prefix +:+ "_PASS" →
  last (filter (λ kv, kv.1 = k) (flat_map (written W prefix d) us))
  = (λ u, (pass_key W prefix u, models.Password u))
      <$> last (filter (λ u, pass_key W prefix u = k) us).
Proof. intros HU HP. apply last_filter_flat_map. intros u. by apply written_other. Qed.

End Lookup.

Section Projection.

Variable W : World.

Lemma project_lookup svc e k :
  project W svc e !! k =
  if decide (k = env_prefix W (models.Name svc) +:+ "_USERS"
             ∧ 0 < length (models.Users (models.Plan svc)))
  then Some (strings_Join (map models.Username (models.Users (models.Plan svc))) " ")
  else
    match last (filter (λ kv, kv.1 = k)
                  (flat_map (written W (env_prefix W (models.Name svc))
                                     (models.DefaultUser (models.Plan svc)))
                            (models.Users (models.Plan svc)))) with
    | Some kv => Some kv.2
    | None =>
        if decide (k = env_prefix W (models.Name svc) +:+ "_HOST")
        then Some (models.InternalIP svc)
        else e !! k
    end.
Proof.
  rewrite project_assignments, apply_writes_lookup. unfold assignments. cbv zeta.
  change (?a :: ?l ++ ?r) with ([a] ++ l ++ r).
  rewrite !last_filter_app.
  destruct (decide (0 < length (models.Users (models.Plan svc)))) as [Hlen|Hlen].
  - rewrite filter_cons, filter_nil. cbn [fst].
    destruct (decide (_ = k)) as [<-|Hk].
    + rewrite decide_True by done. reflexivity.
    + rewrite decide_False by (intros [-> _]; done). cbn [last].
      destruct (last _) as [kv|]; [reflexivity|].
      rewrite filter_cons, filter_nil. cbn [fst].
      destruct (decide (_ = k)) as [<-|Hh].
      * by rewrite decide_True.
      * by rewrite decide_False.
  - rewrite decide_False by (intros [_ ?]; done). rewrite filter_nil. cbn [last].
    destruct (last _) as [kv|]; [reflexivity|].
    rewrite filter_cons, filter_nil. cbn [fst].
    destruct (decide (_ = k)) as [<-|Hh].
    + by rewrite decide_True.
    + by rewrite decide_False.
Qed.

Lemma project_USER svc e :
  project W svc e !! (env_prefix W (models.Name svc) +:+ "_USER") =
  match last (filter (is_default (models.DefaultUser (models.Plan svc)))
                     (models.Users (models.Plan svc))) with
  | Some u => Some (models.Username u)
  | None => e !! (env_prefix W (models.Name svc) +:+ "_USER")
  end.
Proof.
  rewrite project_lookup.
  rewrite decide_False by (intros [E _]; by apply fixed_keys_differ in E).
  rewrite flat_USER. destruct (last _); [reflexivity|]. cbn.
  by rewrite decide_False by (by apply fixed_keys_differ).
Qed.

Lemma project_PASS svc e :
  project W svc e !! (env_prefix W (models.Name svc) +:+ "_PASS") =
  match last (filter (is_default (models.DefaultUser (models.Plan svc)))
                     (models.Users (models.Plan svc))) with
  | Some u => Some (models.Password u)
  | None => e !! (env_prefix W (models.Name svc) +:+ "_PASS")
  end.
Proof.
  rewrite project_lookup.
  rewrite decide_False by (intros [E _]; by apply fixed_keys_differ in E).
  rewrite flat_PASS. destruct (last _); [reflexivity|]. cbn.
  by rewrite decide_False by (by apply fixed_keys_differ).
Qed.

Lemma default_declared (d : string) (us : list models.User) :
  is_Some (last (filter (is_default d) us))
  ↔ ∃ u, u ∈ us ∧ models.Username u = d.
Proof.
  rewrite last_is_Some. split.
  - intros Hne. destruct (filter (is_default d) us) as [|u l] eqn:E; [done|].
    assert (Hu : u ∈ filter (is_default d) us) by (rewrite E; left).
    apply list_elem_of_filter in Hu as [Hd Hin]. by exists u.
  - intros [u [Hin Hd]] E.
    assert (Hu : u ∈ filter (is_default d) us) by (by apply list_elem_of_filter).
    rewrite E in Hu. by apply elem_of_nil in Hu.
Qed.

(** C10. After the projection, [PREFIX_USER] and [PREFIX_PASS] are
    governed by the declared users whose username equals the plan's
    [default_user]. When there are such users, the keys hold the default
    username and the password of the last of them in plan order. When
    there is none, [default_user] being empty or not, neither key is
    written: each holds what the loaded table held. So, starting from an
    empty table, each of the two keys exists exactly when some declared
    user is named [default_user]. *)
Theorem default_user_keys (svc : models.Service) (e : gmap string string) :
  let prefix := env_prefix W (models.Name svc) in
  let d := models.DefaultUser (models.Plan svc) in
  let us := models.Users (models.Plan svc) in
  match last (filter (is_default d) us) with
  | Some u =>
      models.Username u = d ∧
      project W svc e !! (prefix +:+ "_USER") = Some d ∧
      project W svc e !! (prefix +:+ "_PASS") = Some (models.Password u)
  | None =>
      project W svc e !! (prefix +:+ "_USER") = e !! (prefix +:+ "_USER") ∧
      project W svc e !! (prefix +:+ "_PASS") = e !! (prefix +:+ "_PASS")
  end ∧
  (is_Some (project W svc ∅ !! (prefix +:+ "_USER")) ↔ ∃ u, u ∈ us ∧ models.Username u = d) ∧
  (is_Some (project W svc ∅ !! (prefix +:+ "_PASS")) ↔ ∃ u, u ∈ us ∧ models.Username u = d).
Proof.
  intros prefix d us.
  pose proof (project_USER svc) as HU.
  pose proof (project_PASS svc) as HP.
  pose proof (default_declared d us) as Hex.
  fold prefix d us in HU, HP.
  rewrite !HU, !HP. split; [|split].
  - destruct (last (filter (is_default d) us)) as [u|] eqn:E.
    + assert (Hd : models.Username u = d).
      { apply last_Some_elem_of in E.
        by apply (list_elem_of_filter (is_default d)) in E as [? _]. }
      by rewrite Hd.
    + done.
  - rewrite <- Hex. destruct (last _); [done|]. by rewrite lookup_empty.
  - rewrite <- Hex. destruct (last _); [done|]. by rewrite lookup_empty.
Qed.

Lemma no_pass_key_fixed prefix (us : list models.User) k :
  k = prefix +:+ "_HOST" ∨ k = prefix +:+ "_USER" ∨
  k = prefix +:+ "_PASS" ∨ k = prefix +:+ "_USERS" →
  last (filter (λ u, pass_key W prefix u = k) us) = None.
Proof.
  intros Hk. apply last_filter_none. intros u _.
  destruct Hk as [-> | [-> | [-> | ->]]].
  - apply (pass_key_not_fixed W prefix u "HOST"). tauto.
  - apply (pass_key_not_fixed W prefix u "USER"). tauto.
  - apply (pass_key_not_fixed W prefix u "PASS"). tauto.
  - apply (pass_key_not_fixed W prefix u "USERS"). tauto.
Qed.

(** C6. The projection, for a service named [name] with internal address
    [ip], declared users [us] and default user [d], writing
    PREFIX = upper(name with "." replaced by "_"):
    - PREFIX_HOST holds [ip];
    - for every declared user, PREFIX_<UPPER USERNAME>_PASS holds a declared
      password: that of the last declared user with this key;
    - when [d] names a declared user, PREFIX_USER and PREFIX_PASS hold the
      username and password of the (last) user so named;
    - PREFIX_USERS holds the usernames joined by spaces in plan order when
      there is a user, and is left as loaded when there is none;
    - every other key holds what the loaded table held;
    - with no declared user the table is the loaded one with PREFIX_HOST
      set, and nothing else;
    - the table depends on the service through its name, its internal
      address and its plan only. *)
Theorem projection_adds_exactly (svc : models.Service) (e : gmap string string) :
  let prefix := strings_ToUpper W (strings_Replace (models.Name svc) "." "_") in
  let d := models.DefaultUser (models.Plan svc) in
  let us := models.Users (models.Plan svc) in
  project W svc e !! (prefix +:+ "_HOST") = Some (models.InternalIP svc) ∧
  (∀ u, u ∈ us →
     ∃ u', last (filter (λ x, pass_key W prefix x = pass_key W prefix u) us) = Some u' ∧
           project W svc e !! (prefix +:+ "_" +:+ strings_ToUpper W (models.Username u)
                               +:+ "_PASS")
           = Some (models.Password u')) ∧
  (∀ u, last (filter (is_default d) us) = Some u →
     models.Username u = d ∧
     project W svc e !! (prefix +:+ "_USER") = Some (models.Username u) ∧
     project W svc e !! (prefix +:+ "_PASS") = Some (models.Password u)) ∧
  project W svc e !! (prefix +:+ "_USERS")
    = (if decide (0 < length us)
       then Some (strings_Join (map models.Username us) " ")
       else e !! (prefix +:+ "_USERS")) ∧
  (∀ k, k ≠ prefix +:+ "_HOST" →
        (∀ u, u ∈ us → k ≠ pass_key W prefix u) →
        (k = prefix +:+ "_USER" ∨ k = prefix +:+ "_PASS" →
           ¬ ∃ u, u ∈ us ∧ models.Username u = d) →
        (k = prefix +:+ "_USERS" → us = []) →
        project W svc e !! k = e !! k) ∧
  (us = [] → project W svc e = <[prefix +:+ "_HOST" := models.InternalIP svc]> e) ∧
  (∀ svc', models.Name svc' = models.Name svc →
           models.InternalIP svc' = models.InternalIP svc →
           models.Plan svc' = models.Plan svc →
           project W svc' e = project W svc e).
Proof.
  intros prefix d us.
  change prefix with (env_prefix W (models.Name svc)) in *.
  set (P := env_prefix W (models.Name svc)) in *.
  assert (Hother : ∀ k, k ≠ P +:+ "_USER" → k ≠ P +:+ "_PASS" →
            project W svc e !! k =
            if decide (k = P +:+ "_USERS" ∧ 0 < length us)
            then Some (strings_Join (map models.Username us) " ")
            else match last (filter (λ u, pass_key W P u = k) us) with
                 | Some u => Some (models.Password u)
                 | None => if decide (k = P +:+ "_HOST")
                           then Some (models.InternalIP svc) else e !! k
                 end).
  { intros k HU HP. rewrite project_lookup. fold P d us.
    destruct (decide _); [reflexivity|].
    rewrite flat_other by assumption. by destruct (last _). }
  pose proof (project_USER svc e) as HU.
  pose proof (project_PASS svc e) as HP.
  fold P d us in HU, HP.
  repeat split.
  - rewrite Hother by (by apply fixed_keys_differ).
    rewrite decide_False by (intros [E _]; by apply fixed_keys_differ in E).
    rewrite (no_pass_key_fixed P us (P +:+ "_HOST")) by tauto.
    by rewrite decide_True.
  - intros u Hu.
    assert (Hsome : is_Some (last (filter
              (λ x, pass_key W P x = pass_key W P u) us))).
    { apply last_is_Some. intros E.
      assert (Hin : u ∈ filter (λ x, pass_key W P x = pass_key W P u) us)
        by (by apply list_elem_of_filter).
      rewrite E in Hin. by apply elem_of_nil in Hin. }
    destruct Hsome as [u' Hu']. exists u'. split; [exact Hu'|].
    change (P +:+ "_" +:+ strings_ToUpper W (models.Username u) +:+ "_PASS")
      with (pass_key W P u).
    rewrite Hother.
    + rewrite decide_False
        by (intros [E _]; by apply (pass_key_not_fixed W P u "USERS") in E; [|tauto]).
      by rewrite Hu'.
    + apply (pass_key_not_fixed W P u "USER"). tauto.
    + apply (pass_key_not_fixed W P u "PASS"). tauto.
  - apply last_Some_elem_of in H.
    by apply (list_elem_of_filter (is_default d)) in H as [? _].
  - by rewrite HU, H.
  - by rewrite HP, H.
  - rewrite Hother by (by apply fixed_keys_differ).
    destruct (decide (0 < length us)).
    + by rewrite decide_True.
    + rewrite decide_False by tauto.
      rewrite (no_pass_key_fixed P us (P +:+ "_USERS")) by tauto.
      by rewrite decide_False by (by apply fixed_keys_differ).
  - intros k Hhost Hkeys Hdef Husers.
    assert (Hnone : k = P +:+ "_USER" ∨ k = P +:+ "_PASS" →
                    last (filter (is_default d) us) = None).
    { intros Hk. apply eq_None_not_Some. rewrite default_declared. by apply Hdef. }
    destruct (decide (k = P +:+ "_USER")) as [->|HkU].
    { rewrite HU, Hnone; tauto. }
    destruct (decide (k = P +:+ "_PASS")) as [->|HkP].
    { rewrite HP, Hnone; tauto. }
    rewrite Hother by assumption.
    rewrite decide_False.
    + rewrite last_filter_none; [by rewrite decide_False|].
      intros u Hu E. by apply (Hkeys u Hu).
    + intros [E Hlen]. rewrite (Husers E) in Hlen. cbn in Hlen. lia.
  - intros Hnil. rewrite project_assignments. unfold assignments. fold P us.
    rewrite Hnil. reflexivity.
  - intros svc' Hn Hi Hp. unfold project. by rewrite Hn, Hi, Hp.
Qed.

End Projection.

(** ** Runs in concrete worlds *)

(** C1 (the code at a failing input). The global pool is exhausted and the
    return of the local address fails. [clean] does return "return
    failed", yet [Process] returns the pool's error alone: the same result
    as in the world where the address is returned without error. *)
Theorem Process_drops_compensation_error :
  let stuck := scripted id pool_exhausted_return_fails parse_ok in
  let rolled_back := scripted id pool_exhausted parse_ok in
  let steps := Process_steps stuck fresh [header stuck fresh] in
  result (clean stuck (after steps) (log steps)) = Some "return failed" ∧
  last (log (Process stuck fresh [])) = Some (ip_control_ReturnIP local_address) ∧
  result (Process stuck fresh []) = Some "global pool exhausted" ∧
  result (Process rolled_back fresh []) = Some "global pool exhausted" ∧
  log (Process rolled_back fresh []) = log (Process stuck fresh []).
Proof. vm_compute. repeat split. Qed.

(** The order of a full rollback: the NAT rule fails, and the four closures
    pushed so far run first pushed, first run. *)
Example rollback_is_first_in_first_out :
  let r := Process (scripted id nat_fails parse_ok) fresh [] in
  result r = Some "nat failed" ∧
  cleanFuncs (after r)
    = [ReturnLocalIP; ReturnGlobalIP; RemoveContainer "c0ffee"; RemoveGlobalIP] ∧
  List.filter is_undo (log r)
    = [ip_control_ReturnIP local_address;
       ip_control_ReturnIP [Byte.xc0; Byte.xa8; Byte.x00; Byte.x32];
       docker_ContainerRemove "c0ffee";
       provider_RemoveIP "192.168.0.50"].
Proof. vm_compute. repeat split. Qed.

(** The specification's example of the projection. *)
Example projection_of_data_db :
  project (scripted id nothing_fails parse_ok) (data_db [alice; bob] "alice") ∅
  = list_to_map [("DATA_DB_HOST", "10.0.0.2"); ("DATA_DB_ALICE_PASS", "p1");
                 ("DATA_DB_BOB_PASS", "p2"); ("DATA_DB_USER", "alice");
                 ("DATA_DB_PASS", "p1"); ("DATA_DB_USERS", "alice bob")].
Proof. vm_compute. reflexivity. Qed.

Example projection_without_users :
  project (scripted id nothing_fails parse_ok) (data_db [] "") ∅
  = {[ "DATA_DB_HOST" := "10.0.0.2" ]}.
Proof. vm_compute. reflexivity. Qed.

(** ** The statements at concrete inputs *)



Lemma reserveIps_registers_returns_witness :
  let W0 := scripted id pool_exhausted parse_ok in
  result (Process W0 fresh []) = Some "global pool exhausted" ∧
  log (Process W0 fresh [])
    = [control_Display "+ Launching data.db...";
       data_Get "app" "data.db";
       docker_ImagePull "nanobox/mysql" "  + Pulling nanobox/mysql -";
       ip_control_ReserveLocal; ip_control_ReserveGlobal;
       ip_control_ReturnIP local_address].
Proof.
  intros W0.
  destruct (reserveIps_registers_returns W0 fresh []) as [_ H].
  apply (H eq_refl eq_refl eq_refl eq_refl "global pool exhausted" eq_refl).
Defined.

Lemma Service_written_once_at_the_end_witness :
  let W0 := scripted id nothing_fails parse_fails in
  preceding_succeed W0 fresh [] ∧
  result (Process W0 fresh [])
    = Some "persistService:unexpected end of JSON input" ∧
  service_puts (since [] (log (Process W0 fresh []))) = 0.
Proof.
  intros W0.
  assert (H : preceding_succeed W0 fresh []) by (vm_compute; repeat split).
  split; [exact H|].
  destruct (Service_written_once_at_the_end W0 fresh []) as [_ [_ Hfail]].
  exact (Hfail "unexpected end of JSON input" H eq_refl).
Defined.

Lemma serviceSetupFunc_validates_witness :
  serviceSetupFunc request_without_image []
    = ((None, Some "missing image or name"), {[ "name" := "data.db" ]}, []) ∧
  ∃ s, serviceSetupFunc request []
       = ((Some s, None),
          <["label" := "data.db"]> {[ "name" := "data.db"; "image" := "nanobox/mysql" ]}, []) ∧
       index (processor.Meta (control s)) "label" = "data.db".
Proof.
  split.
  - apply (serviceSetupFunc_validates request_without_image []).
    right. reflexivity.
  - destruct (serviceSetupFunc_validates request []) as [_ H].
    destruct H as [s [E [Hl _]]].
    + vm_compute. discriminate.
    + vm_compute. discriminate.
    + reflexivity.
    + exists s. split; [exact E | exact Hl].
Defined.


Lemma projection_adds_exactly_witness :
  let W0 := scripted id nothing_fails parse_ok in
  (∃ u', last (filter (λ x, pass_key W0 "DATA_DB" x = pass_key W0 "DATA_DB" bob)
                      [alice; bob]) = Some u' ∧
         project W0 (data_db [alice; bob] "alice") ∅ !! "DATA_DB_BOB_PASS"
         = Some (models.Password u')) ∧
  project W0 (data_db [] "alice") ∅ = <["DATA_DB_HOST" := "10.0.0.2"]> ∅.
Proof.
  intros W0. split.
  - destruct (projection_adds_exactly W0 (data_db [alice; bob] "alice") ∅)
      as [_ [Hpass _]].
    apply (Hpass bob). right. left.
  - destruct (projection_adds_exactly W0 (data_db [] "alice") ∅)
      as [_ [_ [_ [_ [_ [Hnone _]]]]]].
    apply Hnone. reflexivity.
Defined.

(** ** The steps, one by one *)

Section Runs.

Variable W : World.

Lemma range_cleanFuncs_all_ok fs s h :
  undo_never_fails W →
  range_cleanFuncs W fs s h = (None, s, h ++ map (undo_call W s) fs).
Proof.
  intros Hok. revert h. induction fs as [|f fs IH]; intros h.
  - cbn. by rewrite app_nil_r.
  - cbn [range_cleanFuncs]. rewrite bind_run, call_cleanFunc_run.
    cbn [result after log fst snd]. rewrite Hok, IH.
    cbn [map]. by rewrite <- app_assoc.
Qed.

Lemma downloadImage_run s h :
  downloadImage W s h =
  (on_ImagePull W h (index (processor.Meta (control s)) "image") (pull_prefix W s),
   s,
   h ++ [docker_ImagePull (index (processor.Meta (control s)) "image") (pull_prefix W s)]).
Proof.
  unfold downloadImage, pull_prefix. exec.
  by destruct (on_ImagePull W _ _ _).
Qed.

Lemma launchContainer_run s h :
  let made_ := on_CreateContainer W
                 (h ++ [control_Info (stylish_SubBullet W "Starting container...")])
                 (container_config W s) in
  log (launchContainer W s h)
    = h ++ [control_Info (stylish_SubBullet W "Starting container...");
            docker_CreateContainer (container_config W s)] ∧
  result (launchContainer W s h) = made_.2 ∧
  after (launchContainer W s h)
    = match made_.2 with
      | Some _ => s
      | None => with_container made_.1 (push_clean (RemoveContainer (docker.ID made_.1)) s)
      end.
Proof.
  unfold launchContainer, container_config. exec.
  destruct (on_CreateContainer W _ _).2; exec; by rewrite <- app_assoc.
Qed.

Lemma attachNetwork_run s h :
  let g := IP_String W (globalIP s) in
  let l := IP_String W (localIP s) in
  let info := control_Info (stylish_SubBullet W "Bridging container to host network...") in
  match on_AddIP W (h ++ [info]) g with
  | Some e =>
      attachNetwork W s h = (Some e, s, h ++ [info; provider_AddIP g])
  | None =>
      attachNetwork W s h =
      (on_AddNat W (h ++ [info; provider_AddIP g]) g l,
       match on_AddNat W (h ++ [info; provider_AddIP g]) g l with
       | Some _ => push_clean RemoveGlobalIP s
       | None => push_clean RemoveNat (push_clean RemoveGlobalIP s)
       end,
       h ++ [info; provider_AddIP g; provider_AddNat g l])
  end.
Proof.
  unfold attachNetwork. exec.
  destruct (on_AddIP W _ _); exec; rewrite <- ?app_assoc; [done|].
  cbn [app globalIP localIP push_clean].
  by destruct (on_AddNat W _ _ _); exec; rewrite <- ?app_assoc.
Qed.

Lemma planService_run s h :
  let info := control_Info (stylish_SubBullet W "Gathering service requirements...") in
  let payload := plan_payload W (index (processor.Meta (control s)) "boxfile")
                                (index (processor.Meta (control s)) "name") in
  let got := on_Exec W (h ++ [info]) (docker.ID (container s)) "plan" payload in
  planService W s h =
  (got.2,
   match got.2 with Some _ => s | None => with_plan got.1 s end,
   h ++ [info; util_Exec (docker.ID (container s)) "plan" payload]).
Proof.
  unfold planService. exec.
  by destruct (on_Exec W _ _ _ _).2; exec; rewrite <- app_assoc.
Qed.

Lemma addEnvVars_run s h :
  let bucket := util_AppName W +:+ "_meta" in
  let table := project W (service s) (on_Get_EnvVars W h bucket "env" ∅).1 in
  addEnvVars W s h =
  (on_Put W (h ++ [data_Get bucket "env"]) bucket "env" (StoredEnvVars table),
   s,
   h ++ [data_Get bucket "env"; data_Put bucket "env" (StoredEnvVars table)]).
Proof.
  unfold addEnvVars. exec.
  by destruct (on_Put W _ _ _ _); rewrite <- app_assoc.
Qed.

(** The password loop: one generator call per user, usernames and order
    kept, every password replaced by what the generator answered. *)
Lemma set_passwords_run users s h :
  after (set_passwords W users s h) = s ∧
  log (set_passwords W users s h)
    = h ++ replicate (length users) (util_RandomString 10) ∧
  map models.Username (result (set_passwords W users s h))
    = map models.Username users ∧
  ∀ i u, result (set_passwords W users s h) !! i = Some u →
    models.Password u
    = on_RandomString W (h ++ replicate i (util_RandomString 10)) 10.
Proof.
  revert h. induction users as [|u0 users IH]; intros h.
  - cbn. rewrite app_nil_r. repeat split. intros i u Hl. by rewrite lookup_nil in Hl.
  - cbn [set_passwords]. exec.
    destruct (IH (h ++ [util_RandomString 10])) as [Hs [Hl [Hn Hp]]].
    rewrite Hs, Hl. cbn [length replicate map]. rewrite Hn.
    rewrite <- app_assoc. repeat split.
    intros [|i] u Hu; cbn in Hu.
    + injection Hu as <-. cbn. by rewrite app_nil_r.
    + rewrite (Hp i u Hu). cbn [replicate]. by rewrite <- app_assoc.
Qed.

End Runs.

Section PersistRun.

Variable W : World.

Lemma persistService_run_ok s h :
  (parsed W s).2 = None →
  ∃ users,
    map models.Username users = map models.Username (models.Users (parsed W s).1) ∧
    (∀ i u, users !! i = Some u →
       models.Password u = on_RandomString W (h ++ replicate i (util_RandomString 10)) 10) ∧
    service (after (persistService W s h))
      = {| models.ID := docker.ID (container s);
           models.Name := index (processor.Meta (control s)) "name";
           models.ExternalIP := IP_String W (globalIP s);
           models.InternalIP := IP_String W (localIP s);
           models.State := "planned";
           models.Type_ := "data";
           models.Plan := {| models.Users := users;
                             models.DefaultUser := models.DefaultUser (parsed W s).1 |} |} ∧
    after (persistService W s h)
      = with_service (service (after (persistService W s h))) s ∧
    log (persistService W s h)
      = h ++ replicate (length users) (util_RandomString 10)
          ++ [data_Put (util_AppName W) (index (processor.Meta (control s)) "name")
                       (StoredService (service (after (persistService W s h))))] ∧
    result (persistService W s h)
      = on_Put W (h ++ replicate (length users) (util_RandomString 10))
               (util_AppName W) (index (processor.Meta (control s)) "name")
               (StoredService (service (after (persistService W s h)))).
Proof.
  unfold parsed. intros Hparse. unfold persistService. exec. cbn [models.Plan].
  rewrite Hparse. exec.
  match goal with
  | |- context [set_passwords W ?us ?s0 h] =>
      destruct (set_passwords_run W us s0 h) as [Hs [Hl [Hn Hp]]];
      set (r := set_passwords W us s0 h) in *
  end.
  exists (result r). rewrite Hs, Hl.
  assert (Hlen : length (result r)
                 = length (models.Users (json_Unmarshal W (plan s) (models.Plan (service s))).1)).
  { rewrite <- (length_map models.Username (result r)), Hn. apply length_map. }
  rewrite Hlen.
  split; [exact Hn|]. split; [exact Hp|].
  match goal with |- context [on_Put W ?a ?b ?c ?d] => destruct (on_Put W a b c d) eqn:E end;
    cbn [result after log fst snd ret service with_service]; rewrite <- ?app_assoc;
    repeat split; by rewrite E.
Qed.

Lemma persistService_parse_error s h e :
  (parsed W s).2 = Some e →
  result (persistService W s h) = Some ("persistService:" +:+ e) ∧
  log (persistService W s h) = h ∧
  models.State (service (after (persistService W s h))) = "planned".
Proof.
  unfold parsed. intros Hparse. unfold persistService. exec. cbn [models.Plan].
  rewrite Hparse. exec. done.
Qed.

End PersistRun.

(** ** Runs, stage by stage *)

Section Scenarios.

Variable W : World.

(** [Process_steps] in terms of the stages: it ends at the resume check or
    at the first stage that returns an error. *)
Lemma Process_steps_stages s h :
  Process_steps W s (h ++ [header W s]) =
  if decide (models.State (service (after (at_load W s h))) ≠ "initialized")
  then (None, after (at_load W s h), log (at_load W s h))
  else
    match result (at_pull W s h) with
    | Some e => (Some e, with_fail true (after (at_pull W s h)), log (at_pull W s h))
    | None =>
    match result (at_reserve W s h) with
    | Some e => (Some e, with_fail true (after (at_reserve W s h)), log (at_reserve W s h))
    | None =>
    match result (at_launch W s h) with
    | Some e => (Some e, with_fail true (after (at_launch W s h)), log (at_launch W s h))
    | None =>
    match result (at_attach W s h) with
    | Some e => (Some e, with_fail true (after (at_attach W s h)), log (at_attach W s h))
    | None =>
    match result (at_plan W s h) with
    | Some e => (Some e, with_fail true (after (at_plan W s h)), log (at_plan W s h))
    | None =>
    match result (at_persist W s h) with
    | Some e => (Some e, with_fail true (after (at_persist W s h)), log (at_persist W s h))
    | None =>
    match result (at_env W s h) with
    | Some e => (Some e, with_fail true (after (at_env W s h)), log (at_env W s h))
    | None => (None, after (at_env W s h), log (at_env W s h))
    end end end end end end end.
Proof.
  unfold Process_steps. rewrite step_run, loadService_result. exec.
  fold (at_load W s h).
  destruct (decide _); [reflexivity|].
  rewrite step_run. fold (at_pull W s h). destruct (result (at_pull W s h)); [reflexivity|].
  rewrite step_run. fold (at_reserve W s h). destruct (result (at_reserve W s h)); [reflexivity|].
  rewrite step_run. fold (at_launch W s h). destruct (result (at_launch W s h)); [reflexivity|].
  rewrite step_run. fold (at_attach W s h). destruct (result (at_attach W s h)); [reflexivity|].
  rewrite step_run. fold (at_plan W s h). destruct (result (at_plan W s h)); [reflexivity|].
  rewrite step_run. fold (at_persist W s h). destruct (result (at_persist W s h)); [reflexivity|].
  rewrite step_run. fold (at_env W s h). by destruct (result (at_env W s h)).
Qed.

(** What the deferred [clean] adds when the steps failed and no
    compensation fails. *)
Lemma clean_after_failure s h :
  undo_never_fails W → fail s = true →
  clean W s h = (None, s, h ++ map (undo_call W s) (cleanFuncs s)).
Proof.
  intros Hok Hfail. rewrite clean_run, Hfail. by apply range_cleanFuncs_all_ok.
Qed.

(** The stages the load and the pull leave: only the service record changes. *)
Lemma at_load_after s h :
  ∃ svc, after (at_load W s h) = with_service svc s.
Proof. unfold at_load. rewrite loadService_run. by eexists. Qed.

Lemma at_load_log s h :
  log (at_load W s h)
  = h ++ [header W s;
          data_Get (util_AppName W) (index (processor.Meta (control s)) "name")].
Proof. unfold at_load. rewrite loadService_run. cbn. by rewrite <- app_assoc. Qed.

Lemma at_pull_after s h : after (at_pull W s h) = after (at_load W s h).
Proof. unfold at_pull. by rewrite downloadImage_run. Qed.

Lemma at_pull_log s h :
  log (at_pull W s h)
  = h ++ [header W s;
          data_Get (util_AppName W) (index (processor.Meta (control s)) "name");
          docker_ImagePull (index (processor.Meta (control s)) "image") (pull_prefix W s)].
Proof.
  unfold at_pull. rewrite downloadImage_run. cbn [log snd].
  rewrite at_load_log. destruct (at_load_after s h) as [svc ->].
  by rewrite <- app_assoc.
Qed.

End Scenarios.

(** ** Failures before anything is held *)

Section EarlyFailures.

Variable W : World.

Lemma Process_failed_run s h (r : error * serviceSetup * list call) e :
  Process_steps W s (h ++ [header W s]) = (Some e, with_fail true (after r), log r) →
  undo_never_fails W →
  result (Process W s h) = Some e ∧
  after (Process W s h) = with_fail true (after r) ∧
  log (Process W s h)
    = log r ++ map (undo_call W (with_fail true (after r))) (cleanFuncs (after r)).
Proof.
  intros E Hok. rewrite Process_run, E. cbn [result after log fst snd].
  by rewrite clean_after_failure.
Qed.

(** X1. A failed image pull. When the load finds state "initialized" and
    the pull fails, [Process] returns the pull's error and pushes nothing:
    in a saga built with no closures the run makes the header display, the
    load and the pull, and no further call. *)
Theorem pull_failure_undoes_nothing (s : serviceSetup) (h : list call) (e : string) :
  models.State (service (after (at_load W s h))) = "initialized" →
  result (at_pull W s h) = Some e →
  cleanFuncs s = [] →
  result (Process W s h) = Some e ∧
  cleanFuncs (after (Process W s h)) = [] ∧
  log (Process W s h)
    = h ++ [header W s;
            data_Get (util_AppName W) (index (processor.Meta (control s)) "name");
            docker_ImagePull (index (processor.Meta (control s)) "image")
                             (pull_prefix W s)].
Proof.
  intros Hinit Hpull Hnone.
  rewrite Process_run, Process_steps_stages.
  rewrite decide_False by (intros Hne; by apply Hne).
  rewrite Hpull. cbn [result after log fst snd].
  assert (Hfs : cleanFuncs (after (at_pull W s h)) = []).
  { rewrite at_pull_after. destruct (at_load_after W s h) as [svc ->]. exact Hnone. }
  rewrite clean_run. cbn [fail with_fail cleanFuncs]. rewrite Hfs.
  cbn [range_cleanFuncs ret result after log fst snd cleanFuncs with_fail].
  rewrite Hfs, at_pull_log. done.
Qed.

End EarlyFailures.

(** ** The stages that take resources *)

Lemma triple_eta {A} (r : A * serviceSetup * list call) :
  r = (result r, after r, log r).
Proof. by destruct r as [[? ?] ?]. Qed.

Section Acquire.

Variable W : World.

Lemma reserveIps_full s h :
  reserveIps W s h =
  match (on_ReserveLocal W h).2 with
  | Some e => (Some e, with_localIP (on_ReserveLocal W h).1 s, h ++ [ip_control_ReserveLocal])
  | None =>
      match (on_ReserveGlobal W (h ++ [ip_control_ReserveLocal])).2 with
      | Some e =>
          (Some e,
           with_globalIP (on_ReserveGlobal W (h ++ [ip_control_ReserveLocal])).1
             (push_clean ReturnLocalIP (with_localIP (on_ReserveLocal W h).1 s)),
           h ++ reserve_calls)
      | None =>
          (None,
           reserved (on_ReserveLocal W h).1
                    (on_ReserveGlobal W (h ++ [ip_control_ReserveLocal])).1 s,
           h ++ reserve_calls)
      end
  end.
Proof.
  unfold reserveIps, reserved, reserve_calls. exec.
  destruct (on_ReserveLocal W h).2; exec; [done|].
  by destruct (on_ReserveGlobal W _).2; exec; rewrite <- app_assoc.
Qed.

Lemma container_config_load s svc l g :
  container_config W (reserved l g (with_service svc s))
  = container_config W (with_localIP l s).
Proof. reflexivity. Qed.

Lemma reserve_ok s h :
  result (at_reserve W s h) = None →
  at_reserve W s h
  = (None,
     reserved (local_address_of W s h) (global_address_of W s h) (after (at_load W s h)),
     log (at_pull W s h) ++ reserve_calls).
Proof.
  unfold at_reserve, local_address_of, global_address_of.
  rewrite reserveIps_full, at_pull_after.
  destruct (on_ReserveLocal W _).2; [discriminate|].
  by destruct (on_ReserveGlobal W _).2.
Qed.

Lemma launch_ok s h :
  result (at_reserve W s h) = None →
  result (at_launch W s h) = None →
  at_launch W s h
  = (None,
     launched (container_of W s h)
       (reserved (local_address_of W s h) (global_address_of W s h) (after (at_load W s h))),
     log (at_pull W s h) ++ reserve_calls ++ launch_calls W s (local_address_of W s h)).
Proof.
  intros H3 H4. rewrite (triple_eta (at_launch W s h)), H4.
  unfold container_of. unfold at_launch in *.
  destruct (launchContainer_run W (after (at_reserve W s h)) (log (at_reserve W s h)))
    as [Hlog [Hres Hafter]].
  rewrite Hres in H4. rewrite Hafter, Hlog, H4.
  rewrite (reserve_ok s h H3). cbn [after log fst snd].
  destruct (at_load_after W s h) as [svc ->].
  unfold launch_calls. rewrite container_config_load, <- !app_assoc. reflexivity.
Qed.

(** A failed creation leaves the struct as the reservations left it. *)
Lemma launch_failed s h e :
  result (at_reserve W s h) = None →
  result (at_launch W s h) = Some e →
  at_launch W s h
  = (Some e,
     reserved (local_address_of W s h) (global_address_of W s h) (after (at_load W s h)),
     log (at_pull W s h) ++ reserve_calls ++ launch_calls W s (local_address_of W s h)).
Proof.
  intros H3 H4. rewrite (triple_eta (at_launch W s h)), H4.
  unfold at_launch in *.
  destruct (launchContainer_run W (after (at_reserve W s h)) (log (at_reserve W s h)))
    as [Hlog [Hres Hafter]].
  rewrite Hres in H4. rewrite Hafter, Hlog, H4.
  rewrite (reserve_ok s h H3). cbn [after log fst snd].
  destruct (at_load_after W s h) as [svc ->].
  unfold launch_calls. rewrite container_config_load, <- !app_assoc. reflexivity.
Qed.

Lemma attach_ok s h :
  result (at_reserve W s h) = None →
  result (at_launch W s h) = None →
  result (at_attach W s h) = None →
  at_attach W s h
  = (None,
     attached (launched (container_of W s h)
       (reserved (local_address_of W s h) (global_address_of W s h) (after (at_load W s h)))),
     log (at_pull W s h) ++ reserve_calls ++ launch_calls W s (local_address_of W s h)
       ++ attach_calls W (local_address_of W s h) (global_address_of W s h)).
Proof.
  intros H3 H4 H5. unfold at_attach in *.
  rewrite (launch_ok s h H3 H4) in *. cbn [after log fst snd] in *.
  match goal with
  | |- attachNetwork W ?s0 ?h0 = _ =>
      pose proof (attachNetwork_run W s0 h0) as Hrun; cbv zeta in Hrun
  end.
  destruct (on_AddIP W _ _).
  - rewrite Hrun in H5. discriminate.
  - rewrite Hrun in H5 |- *. cbn [result fst] in H5. rewrite H5.
    unfold attached, attach_calls. cbn [globalIP localIP launched reserved
      with_container push_clean with_globalIP with_localIP].
    by rewrite <- !app_assoc.
Qed.

End Acquire.

(** ** Failures once resources are held *)

Section Rollbacks.

Variable W : World.

(** X2. A failed container creation, in a saga as the constructor builds
    it (its list of closures empty). Both addresses were reserved; the
    creation fails; [Process] returns its error and, compensations not
    failing, returns the two addresses the pools handed out, the local one
    first, and removes no container. *)
Theorem launch_failure_returns_both_addresses
    (s : serviceSetup) (h : list call) (e : string) :
  models.State (service (after (at_load W s h))) = "initialized" →
  result (at_pull W s h) = None →
  result (at_reserve W s h) = None →
  result (at_launch W s h) = Some e →
  cleanFuncs s = [] →
  undo_never_fails W →
  result (Process W s h) = Some e ∧
  log (Process W s h)
    = log (at_pull W s h) ++ reserve_calls
        ++ launch_calls W s (local_address_of W s h)
        ++ [ip_control_ReturnIP (local_address_of W s h);
            ip_control_ReturnIP (global_address_of W s h)].
Proof.
  intros Hinit H2 H3 H4 Hnone Hok.
  assert (E : Process_steps W s (h ++ [header W s])
              = (Some e, with_fail true (after (at_launch W s h)), log (at_launch W s h))).
  { rewrite Process_steps_stages.
    rewrite decide_False by (intros Hne; by apply Hne).
    by rewrite H2, H3, H4. }
  destruct (Process_failed_run W s h _ e E Hok) as [Hres [_ Hlog]].
  split; [exact Hres|]. rewrite Hlog, (launch_failed W s h e H3 H4).
  cbn [after log fst snd]. destruct (at_load_after W s h) as [svc ->].
  cbn. rewrite Hnone. cbn. by rewrite <- !app_assoc.
Qed.

Lemma nat_failed s h e :
  result (at_reserve W s h) = None →
  result (at_launch W s h) = None →
  on_AddIP W
    (log (at_launch W s h)
     ++ [control_Info (stylish_SubBullet W "Bridging container to host network...")])
    (IP_String W (global_address_of W s h)) = None →
  result (at_attach W s h) = Some e →
  at_attach W s h
  = (Some e,
     push_clean RemoveGlobalIP
       (launched (container_of W s h)
          (reserved (local_address_of W s h) (global_address_of W s h)
                    (after (at_load W s h)))),
     log (at_pull W s h) ++ reserve_calls ++ launch_calls W s (local_address_of W s h)
       ++ attach_calls W (local_address_of W s h) (global_address_of W s h)).
Proof.
  intros H3 H4 Hip H5. unfold at_attach in *.
  rewrite (launch_ok W s h H3 H4) in *. cbn [after log fst snd] in *.
  match goal with
  | |- attachNetwork W ?s0 ?h0 = _ =>
      pose proof (attachNetwork_run W s0 h0) as Hrun; cbv zeta in Hrun
  end.
  cbn [globalIP localIP launched reserved with_container push_clean
       with_globalIP with_localIP] in Hrun.
  rewrite Hip in Hrun. rewrite Hrun in H5 |- *. cbn [result fst] in H5. rewrite H5.
  unfold attach_calls. by rewrite <- !app_assoc.
Qed.

(** X3. A failed NAT rule, in a saga as the constructor builds it (its
    list of closures empty). The bridge address was added and the NAT rule
    fails: [Process] returns the NAT error and, compensations not failing,
    undoes in the order of registration: local address, global address,
    container, bridge address. The NAT rule, never added, is not removed. *)
Theorem nat_failure_rolls_back_four
    (s : serviceSetup) (h : list call) (e : string) :
  models.State (service (after (at_load W s h))) = "initialized" →
  result (at_pull W s h) = None →
  result (at_reserve W s h) = None →
  result (at_launch W s h) = None →
  on_AddIP W
    (log (at_launch W s h)
     ++ [control_Info (stylish_SubBullet W "Bridging container to host network...")])
    (IP_String W (global_address_of W s h)) = None →
  result (at_attach W s h) = Some e →
  cleanFuncs s = [] →
  undo_never_fails W →
  result (Process W s h) = Some e ∧
  log (Process W s h)
    = log (at_pull W s h) ++ reserve_calls
        ++ launch_calls W s (local_address_of W s h)
        ++ attach_calls W (local_address_of W s h) (global_address_of W s h)
        ++ [ip_control_ReturnIP (local_address_of W s h);
            ip_control_ReturnIP (global_address_of W s h);
            docker_ContainerRemove (docker.ID (container_of W s h));
            provider_RemoveIP (IP_String W (global_address_of W s h))].
Proof.
  intros Hinit H2 H3 H4 Hip H5 Hnone Hok.
  assert (E : Process_steps W s (h ++ [header W s])
              = (Some e, with_fail true (after (at_attach W s h)), log (at_attach W s h))).
  { rewrite Process_steps_stages.
    rewrite decide_False by (intros Hne; by apply Hne).
    by rewrite H2, H3, H4, H5. }
  destruct (Process_failed_run W s h _ e E Hok) as [Hres [_ Hlog]].
  split; [exact Hres|]. rewrite Hlog, (nat_failed s h e H3 H4 Hip H5).
  cbn [after log fst snd]. destruct (at_load_after W s h) as [svc ->].
  cbn. rewrite Hnone. cbn. by rewrite <- !app_assoc.
Qed.

End Rollbacks.

Section LateFailures.

Variable W : World.

Lemma persistService_after s h :
  ∃ svc, after (persistService W s h) = with_service svc s.
Proof.
  destruct (parsed W s).2 as [e|] eqn:Hparse.
  - eexists. unfold parsed in Hparse. unfold persistService. exec. cbn [models.Plan].
    rewrite Hparse. exec. reflexivity.
  - destruct (persistService_run_ok W s h Hparse) as [users [_ [_ [_ [Hafter _]]]]].
    eexists. exact Hafter.
Qed.

(** The five undoing calls of a run that got through [attachNetwork]. *)
Lemma undo_calls_of_plan (st : serviceSetup) cid :
  cleanFuncs st = undo_plan cid →
  map (undo_call W (with_fail true st)) (cleanFuncs st)
  = [ip_control_ReturnIP (localIP st);
     ip_control_ReturnIP (globalIP st);
     docker_ContainerRemove cid;
     provider_RemoveIP (IP_String W (globalIP st));
     provider_RemoveNat (IP_String W (globalIP st)) (IP_String W (localIP st))].
Proof. intros ->. reflexivity. Qed.

(** What the last three stages keep once the network is attached. *)
Lemma late_stages_hold s h :
  result (at_reserve W s h) = None →
  result (at_launch W s h) = None →
  result (at_attach W s h) = None →
  ∀ st, st = after (at_plan W s h) ∨ st = after (at_persist W s h)
        ∨ st = after (at_env W s h) →
    localIP st = local_address_of W s h ∧
    globalIP st = global_address_of W s h ∧
    container st = container_of W s h ∧
    control st = control s ∧
    fail st = fail s ∧
    cleanFuncs st = cleanFuncs s ++ undo_plan (docker.ID (container_of W s h)).
Proof.
  intros H3 H4 H5.
  assert (H6 : ∃ p, after (at_plan W s h)
                    = with_plan p (after (at_attach W s h))).
  { unfold at_plan. rewrite planService_run. cbn [after fst snd].
    destruct (on_Exec W _ _ _ _).2; eexists; [|reflexivity].
    by instantiate (1 := plan (after (at_attach W s h))); destruct (after (at_attach W s h)). }
  assert (H7 : ∃ svc, after (at_persist W s h) = with_service svc (after (at_plan W s h)))
    by apply persistService_after.
  assert (H8 : after (at_env W s h) = after (at_persist W s h)).
  { unfold at_env. by rewrite addEnvVars_run. }
  destruct H6 as [p H6]. destruct H7 as [svc H7].
  rewrite H8, H7, H6, (attach_ok W s h H3 H4 H5). cbn [after fst snd].
  destruct (at_load_after W s h) as [svc1 ->].
  intros st [-> | [-> | ->]];
    cbn [localIP globalIP container control fail cleanFuncs with_service with_plan
         attached launched reserved push_clean with_container with_globalIP
         with_localIP];
    rewrite <- !app_assoc; done.
Qed.

(** X4. A failure after the network was attached (in the plan hook, in
    persisting or in the environment step), in a saga as the constructor
    builds it (its list of closures empty). [Process] returns the error
    and, compensations not failing, ends with all five undoing calls in
    the order of registration: local address, global address, container,
    bridge address, NAT rule. *)
Theorem late_failure_rolls_back_five
    (s : serviceSetup) (h : list call) (e : string) :
  models.State (service (after (at_load W s h))) = "initialized" →
  result (at_pull W s h) = None →
  result (at_reserve W s h) = None →
  result (at_launch W s h) = None →
  result (at_attach W s h) = None →
  result (Process W s h) = Some e →
  cleanFuncs s = [] →
  undo_never_fails W →
  ∃ later, Forall (λ c, is_undo c = false) later ∧
    log (Process W s h)
    = log (at_attach W s h) ++ later
        ++ [ip_control_ReturnIP (local_address_of W s h);
            ip_control_ReturnIP (global_address_of W s h);
            docker_ContainerRemove (docker.ID (container_of W s h));
            provider_RemoveIP (IP_String W (global_address_of W s h));
            provider_RemoveNat (IP_String W (global_address_of W s h))
                               (IP_String W (local_address_of W s h))].
Proof.
  intros Hinit H2 H3 H4 H5 Hres Hnone Hok.
  pose proof (late_stages_hold s h H3 H4 H5) as Hold.
  destruct (planService_made W (after (at_attach W s h)) (log (at_attach W s h)))
    as [c6 [L6 F6]]. fold (at_plan W s h) in L6.
  destruct (persistService_made W (after (at_plan W s h)) (log (at_plan W s h)))
    as [c7 [L7 F7]]. fold (at_persist W s h) in L7.
  destruct (addEnvVars_made W (after (at_persist W s h)) (log (at_persist W s h)))
    as [c8 [L8 F8]]. fold (at_env W s h) in L8.
  assert (F6' : Forall (λ c, is_undo c = false) c6)
    by (eapply Forall_impl; [exact F6|]; by intros c [? _]).
  assert (F8' : Forall (λ c, is_undo c = false) c8)
    by (eapply Forall_impl; [exact F8|]; by intros c [? _]).
  rewrite Process_result, Process_steps_stages in Hres.
  rewrite decide_False in Hres by (intros Hne; by apply Hne).
  rewrite H2, H3, H4, H5 in Hres.
  assert (Hcase : ∃ (r : error * serviceSetup * list call) later,
            Process_steps W s (h ++ [header W s])
              = (Some e, with_fail true (after r), log r) ∧
            (after r = after (at_plan W s h) ∨ after r = after (at_persist W s h)
             ∨ after r = after (at_env W s h)) ∧
            log r = log (at_attach W s h) ++ later ∧
            Forall (λ c, is_undo c = false) later).
  { rewrite Process_steps_stages.
    rewrite decide_False by (intros Hne; by apply Hne).
    rewrite H2, H3, H4, H5.
    destruct (result (at_plan W s h)) as [e6|].
    { injection Hres as ->. exists (at_plan W s h), c6.
      split; [reflexivity|]. split; [by left|]. split; [exact L6 | exact F6']. }
    destruct (result (at_persist W s h)) as [e7|].
    { injection Hres as ->. exists (at_persist W s h), (c6 ++ c7).
      split; [reflexivity|]. split; [right; by left|]. split.
      - by rewrite L7, L6, app_assoc.
      - by apply Forall_app. }
    destruct (result (at_env W s h)) as [e8|]; [|discriminate].
    injection Hres as ->. exists (at_env W s h), (c6 ++ c7 ++ c8).
    split; [reflexivity|]. split; [right; by right|]. split.
    - by rewrite L8, L7, L6, <- !app_assoc.
    - apply Forall_app. split; [exact F6'|]. by apply Forall_app. }
  destruct Hcase as [r [later [E [Hst [Hlog Hfw]]]]].
  exists later. split; [exact Hfw|].
  destruct (Process_failed_run W s h r e E Hok) as [_ [_ Hl]].
  destruct (Hold (after r) Hst) as [Hl' [Hg' [_ [_ [_ Hfs]]]]].
  rewrite Hnone in Hfs. cbn [app] in Hfs.
  rewrite Hl, (undo_calls_of_plan (after r) _ Hfs), Hlog, Hl', Hg'.
  by rewrite <- !app_assoc.
Qed.

End LateFailures.

(** ** Runs that reach the store *)

Section Success.

Variable W : World.

Lemma plan_log s h :
  result (at_reserve W s h) = None →
  result (at_launch W s h) = None →
  result (at_attach W s h) = None →
  log (at_plan W s h)
  = log (at_attach W s h) ++ plan_calls W s (docker.ID (container_of W s h)).
Proof.
  intros H3 H4 H5. unfold at_plan. rewrite planService_run. cbn [log snd].
  rewrite (attach_ok W s h H3 H4 H5). cbn [after log fst snd].
  destruct (at_load_after W s h) as [svc ->]. reflexivity.
Qed.

(** [persistService] returned nil: the plan parsed, and the record stored
    is the one the struct holds afterwards. *)
Lemma persist_ok s h :
  result (at_reserve W s h) = None →
  result (at_launch W s h) = None →
  result (at_attach W s h) = None →
  result (at_persist W s h) = None →
  let svc := service (after (at_persist W s h)) in
  models.ID svc = docker.ID (container_of W s h) ∧
  models.Name svc = index (processor.Meta (control s)) "name" ∧
  models.ExternalIP svc = IP_String W (global_address_of W s h) ∧
  models.InternalIP svc = IP_String W (local_address_of W s h) ∧
  models.State svc = "planned" ∧
  models.Type_ svc = "data" ∧
  log (at_persist W s h)
    = log (at_plan W s h)
        ++ replicate (length (models.Users (models.Plan svc))) (util_RandomString 10)
        ++ [data_Put (util_AppName W) (index (processor.Meta (control s)) "name")
                     (StoredService svc)].
Proof.
  intros H3 H4 H5 H7.
  destruct (late_stages_hold W s h H3 H4 H5 (after (at_plan W s h)))
    as [Hl [Hg [Hc [Hctl _]]]]; [by left|].
  unfold at_persist in *.
  destruct (parsed W (after (at_plan W s h))).2 as [e|] eqn:Hparse.
  { destruct (persistService_parse_error W _ (log (at_plan W s h)) e Hparse) as [E _].
    rewrite E in H7. discriminate. }
  destruct (persistService_run_ok W _ (log (at_plan W s h)) Hparse)
    as [users [_ [_ [Hsvc [_ [Hlog _]]]]]].
  cbv zeta. rewrite Hlog. rewrite Hsvc.
  cbn [models.ID models.Name models.ExternalIP models.InternalIP models.State
       models.Type_ models.Plan models.Users].
  rewrite Hl, Hg, Hc, Hctl. repeat split.
Qed.

(** X5. A run that returns nil on a fresh record. The saga had not failed,
    the load found state "initialized" and [Process] returned nil. Then
    every step ran, once, in order, and the calls fit together: the
    container was created on the local address the pool handed out, the
    bridge and the NAT rule use the two reserved addresses, the plan hook
    ran in the container docker created, one password was drawn per
    declared user, the record stored is the one the struct holds (with the
    container id, both addresses, state "planned", type "data"), and the
    environment table stored is the projection of that record. No
    compensation ran, and the five closures stay on the list. *)
Theorem successful_run (s : serviceSetup) (h : list call) :
  fail s = false →
  models.State (service (after (at_load W s h))) = "initialized" →
  result (Process W s h) = None →
  let s' := after (Process W s h) in
  let svc := service s' in
  let name := index (processor.Meta (control s)) "name" in
  let bucket := util_AppName W +:+ "_meta" in
  log (Process W s h)
    = h ++ [header W s;
            data_Get (util_AppName W) name;
            docker_ImagePull (index (processor.Meta (control s)) "image") (pull_prefix W s)]
        ++ reserve_calls
        ++ launch_calls W s (localIP s')
        ++ attach_calls W (localIP s') (globalIP s')
        ++ plan_calls W s (docker.ID (container s'))
        ++ replicate (length (models.Users (models.Plan svc))) (util_RandomString 10)
        ++ [data_Put (util_AppName W) name (StoredService svc);
            data_Get bucket "env";
            data_Put bucket "env" (StoredEnvVars (project W svc (loaded_env W s h)))] ∧
  (localIP s' = local_address_of W s h ∧
   globalIP s' = global_address_of W s h ∧
   container s' = container_of W s h) ∧
  (models.ID svc = docker.ID (container s') ∧
   models.Name svc = name ∧
   models.ExternalIP svc = IP_String W (globalIP s') ∧
   models.InternalIP svc = IP_String W (localIP s') ∧
   models.State svc = "planned" ∧
   models.Type_ svc = "data") ∧
  (cleanFuncs s' = cleanFuncs s ++ undo_plan (docker.ID (container s')) ∧
   fail s' = false ∧
   control s' = control s).
Proof.
  intros Hfail Hinit Hres.
  rewrite Process_result, Process_steps_stages in Hres.
  rewrite decide_False in Hres by (intros Hne; by apply Hne).
  destruct (result (at_pull W s h)) eqn:H2; [discriminate|].
  destruct (result (at_reserve W s h)) eqn:H3; [discriminate|].
  destruct (result (at_launch W s h)) eqn:H4; [discriminate|].
  destruct (result (at_attach W s h)) eqn:H5; [discriminate|].
  destruct (result (at_plan W s h)) eqn:H6; [discriminate|].
  destruct (result (at_persist W s h)) eqn:H7; [discriminate|].
  destruct (result (at_env W s h)) eqn:H8; [discriminate|].
  assert (E : Process_steps W s (h ++ [header W s])
              = (None, after (at_env W s h), log (at_env W s h))).
  { rewrite Process_steps_stages.
    rewrite decide_False by (intros Hne; by apply Hne).
    by rewrite H2, H3, H4, H5, H6, H7, H8. }
  destruct (late_stages_hold W s h H3 H4 H5 (after (at_env W s h)))
    as [Hl [Hg [Hc [Hctl [Hf Hfs]]]]]; [right; by right|].
  assert (Henv : at_env W s h
    = (None, after (at_persist W s h),
       log (at_persist W s h)
       ++ [data_Get (util_AppName W +:+ "_meta") "env";
           data_Put (util_AppName W +:+ "_meta") "env"
             (StoredEnvVars (project W (service (after (at_persist W s h)))
                                       (loaded_env W s h)))])).
  { rewrite (triple_eta (at_env W s h)), H8. unfold at_env, loaded_env.
    by rewrite addEnvVars_run. }
  assert (Hs' : after (Process W s h) = after (at_persist W s h)).
  { rewrite Process_run, E. cbn [result after log fst snd].
    rewrite clean_keeps_all. by rewrite Henv. }
  assert (Hlog : log (Process W s h) = log (at_env W s h)).
  { rewrite Process_run, E. cbn [result after log fst snd].
    by rewrite clean_run, Hf, Hfail. }
  rewrite Henv in Hl, Hg, Hc, Hctl, Hf, Hfs. cbn [after fst snd] in *.
  destruct (persist_ok s h H3 H4 H5 H7) as [P1 [P2 [P3 [P4 [P5 [P6 P7]]]]]].
  cbv zeta. rewrite Hs', Hlog, Henv. cbn [log snd].
  rewrite Hl, Hg, Hc.
  split.
  - rewrite P7, (plan_log s h H3 H4 H5), (attach_ok W s h H3 H4 H5).
    cbn [log snd]. rewrite at_pull_log. by rewrite <- !app_assoc.
  - split; [done|]. split; [done|]. by rewrite Hfs, Hf, Hctl.
Qed.

End Success.

Section AfterPersist.

Variable W : World.

(** X6. The environment step fails after the record was stored, in a
    saga as the constructor builds it (its list of closures empty) and
    with compensations that do not fail. Every step
    through [persistService] returned nil and [addEnvVars] fails. Then the
    store has been handed a Service record in state "planned" that names
    the container, and [Process], returning the error, goes on to return
    both addresses, remove that very container and undo the network: the
    stored record is left describing a container that no longer exists. *)
Theorem env_failure_leaves_planned_record
    (s : serviceSetup) (h : list call) (e : string) :
  models.State (service (after (at_load W s h))) = "initialized" →
  result (at_pull W s h) = None →
  result (at_reserve W s h) = None →
  result (at_launch W s h) = None →
  result (at_attach W s h) = None →
  result (at_plan W s h) = None →
  result (at_persist W s h) = None →
  result (at_env W s h) = Some e →
  cleanFuncs s = [] →
  undo_never_fails W →
  result (Process W s h) = Some e ∧
  ∃ svc,
    models.State svc = "planned" ∧
    models.ID svc = docker.ID (container_of W s h) ∧
    log (Process W s h)
    = log (at_plan W s h)
        ++ replicate (length (models.Users (models.Plan svc))) (util_RandomString 10)
        ++ [data_Put (util_AppName W) (index (processor.Meta (control s)) "name")
                     (StoredService svc);
            data_Get (util_AppName W +:+ "_meta") "env";
            data_Put (util_AppName W +:+ "_meta") "env"
                     (StoredEnvVars (project W svc (loaded_env W s h)))]
        ++ [ip_control_ReturnIP (local_address_of W s h);
            ip_control_ReturnIP (global_address_of W s h);
            docker_ContainerRemove (docker.ID (container_of W s h));
            provider_RemoveIP (IP_String W (global_address_of W s h));
            provider_RemoveNat (IP_String W (global_address_of W s h))
                               (IP_String W (local_address_of W s h))].
Proof.
  intros Hinit H2 H3 H4 H5 H6 H7 H8 Hnone Hok.
  assert (E : Process_steps W s (h ++ [header W s])
              = (Some e, with_fail true (after (at_env W s h)), log (at_env W s h))).
  { rewrite Process_steps_stages.
    rewrite decide_False by (intros Hne; by apply Hne).
    by rewrite H2, H3, H4, H5, H6, H7, H8. }
  destruct (Process_failed_run W s h _ e E Hok) as [Hres [_ Hlog]].
  split; [exact Hres|].
  destruct (late_stages_hold W s h H3 H4 H5 (after (at_env W s h)))
    as [Hl [Hg [_ [_ [_ Hfs]]]]]; [right; by right|].
  rewrite Hnone in Hfs. cbn [app] in Hfs.
  destruct (persist_ok W s h H3 H4 H5 H7) as [P1 [_ [_ [_ [P5 [_ P7]]]]]].
  exists (service (after (at_persist W s h))).
  split; [exact P5|]. split; [exact P1|].
  rewrite Hlog, (undo_calls_of_plan W (after (at_env W s h)) _ Hfs), Hl, Hg.
  unfold at_env at 1. rewrite addEnvVars_run. cbn [log snd].
  unfold loaded_env. rewrite P7. by rewrite <- !app_assoc.
Qed.

End AfterPersist.

(** ** The failure flag and the control *)

Section Flag.

Variable W : World.

(** X7. The failure flag is set by a failing run and never cleared. *)
Theorem fail_flag_is_sticky (s : serviceSetup) (h : list call) :
  fail (after (Process W s h))
  = match result (Process W s h) with Some _ => true | None => fail s end.
Proof.
  rewrite Process_run. cbn [result after log fst snd].
  rewrite clean_keeps_all. apply Process_steps_tracks.
Qed.

(** X8. Running [Process] again on a saga that failed. If the flag is set
    and the load finds a state other than "initialized", [Process] returns
    nil as on any resume, and yet the deferred cleanup, when no
    compensation fails, calls every closure still on the list once more
    (a failing compensation would stop it there). *)
Theorem rerun_after_failure_compensates_again (s : serviceSetup) (h : list call) :
  fail s = true →
  models.State (service (after (at_load W s h))) ≠ "initialized" →
  undo_never_fails W →
  result (Process W s h) = None ∧
  cleanFuncs (after (Process W s h)) = cleanFuncs s ∧
  log (Process W s h)
    = h ++ [header W s;
            data_Get (util_AppName W) (index (processor.Meta (control s)) "name")]
        ++ map (undo_call W s) (cleanFuncs s).
Proof.
  intros Hfail Hstate Hok.
  rewrite Process_run, Process_steps_stages, decide_True by exact Hstate.
  cbn [result after log fst snd]. rewrite clean_keeps_all.
  destruct (at_load_after W s h) as [svc E].
  rewrite clean_after_failure; [|exact Hok|by rewrite E].
  cbn [log snd]. rewrite at_load_log, E. cbn [cleanFuncs with_service].
  split; [reflexivity|]. split; [reflexivity|].
  assert (Hm : map (undo_call W (with_service svc s)) (cleanFuncs s)
               = map (undo_call W s) (cleanFuncs s))
    by (apply map_ext; by intros []).
  by rewrite Hm, <- app_assoc.
Qed.

Lemma step_keeps {B} (f : serviceSetup → B) m rest :
  (∀ s, f (with_fail true s) = f s) →
  keeps f m → keeps f rest → keeps f (step m rest).
Proof.
  intros Hf Hm Hr s h. rewrite step_run.
  destruct (result (m s h)); cbn [after fst snd].
  - by rewrite Hf, (Hm s h).
  - by rewrite (Hr _ _), (Hm s h).
Qed.

Lemma loadService_keeps_control : keeps control (loadService W).
Proof. unfold loadService. walk. Qed.

Lemma reserveIps_keeps_control : keeps control (reserveIps W).
Proof. unfold reserveIps. walk. Qed.

Lemma launchContainer_keeps_control : keeps control (launchContainer W).
Proof. unfold launchContainer. walk. Qed.

Lemma attachNetwork_keeps_control : keeps control (attachNetwork W).
Proof. unfold attachNetwork. walk. Qed.

Lemma planService_keeps_control : keeps control (planService W).
Proof. unfold planService. walk. Qed.

Lemma persistService_keeps_control : keeps control (persistService W).
Proof. unfold persistService. walk. apply keeps_id, set_passwords_keeps. Qed.

Lemma Process_steps_keeps_control : keeps control (Process_steps W).
Proof.
  unfold Process_steps.
  apply step_keeps; [done|apply loadService_keeps_control|].
  apply keeps_bind; [apply keeps_self|intros s].
  destruct (decide _); [apply keeps_ret|].
  repeat (apply step_keeps;
          [done
          |first [ apply reserveIps_keeps_control | apply launchContainer_keeps_control
                 | apply attachNetwork_keeps_control | apply planService_keeps_control
                 | apply persistService_keeps_control
                 | apply keeps_id, downloadImage_keeps
                 | apply keeps_id, addEnvVars_keeps ]|]).
  apply keeps_ret.
Qed.

(** X9. [Results] is what the constructor was given. No run of [Process],
    whatever it returns, changes the control: the metadata that [Results]
    hands on for chaining is never enriched with what the saga learned
    (container, addresses, plan). *)
Theorem Results_unchanged_by_Process (s : serviceSetup) (h : list call) :
  Results (after (Process W s h)) = Results s.
Proof.
  unfold Results. rewrite Process_run. cbn [result after log fst snd].
  rewrite clean_keeps_all. apply Process_steps_keeps_control.
Qed.

End Flag.

(** ** Passwords *)

Section Passwords.

Variable W : World.

(** X10. [persistService] never keeps a password from the plan. When the
    plan parses, the users of the stored record are the declared ones, in
    the declared order and with the declared default user, the password of
    the i-th being what the i-th call of the generator answered; these
    calls, one per user, and then the one [data.Put] of the record the
    struct holds, are all the step does. *)
Theorem persistService_replaces_every_password (s : serviceSetup) (h : list call) :
  (parsed W s).2 = None →
  let svc := service (after (persistService W s h)) in
  map models.Username (models.Users (models.Plan svc))
    = map models.Username (models.Users (parsed W s).1) ∧
  models.DefaultUser (models.Plan svc) = models.DefaultUser (parsed W s).1 ∧
  (∀ i u, models.Users (models.Plan svc) !! i = Some u →
     models.Password u
     = on_RandomString W (h ++ replicate i (util_RandomString 10)) 10) ∧
  since h (log (persistService W s h))
    = replicate (length (models.Users (parsed W s).1)) (util_RandomString 10)
        ++ [data_Put (util_AppName W) (index (processor.Meta (control s)) "name")
                     (StoredService svc)].
Proof.
  intros Hparse.
  destruct (persistService_run_ok W s h Hparse)
    as [users [Hn [Hp [Hsvc [_ [Hlog _]]]]]].
  cbv zeta. rewrite Hlog, since_app, Hsvc. cbn [models.Plan models.Users models.DefaultUser].
  assert (Hlen : length users = length (models.Users (parsed W s).1)).
  { rewrite <- (length_map models.Username users), Hn. apply length_map. }
  rewrite Hlen. by repeat split.
Qed.

End Passwords.

(** ** The constructor, case by case *)

(** X11. What the constructor accepts. A saga is built exactly when [name]
    and [image] are both non-empty: a key present with the empty string is
    refused like a missing one. Every saga built has a non-empty label; a
    non-empty label given is kept and the map is then unchanged; no key
    other than [label] is ever touched. *)
Theorem serviceSetupFunc_accepts_iff (ctl : processor.ProcessControl) (h : list call) :
  ((∃ s, (serviceSetupFunc ctl h).1.1 = (Some s, None))
   ↔ index (processor.Meta ctl) "name" ≠ "" ∧ index (processor.Meta ctl) "image" ≠ "") ∧
  (∀ s, (serviceSetupFunc ctl h).1.1 = (Some s, None) →
     index (processor.Meta (control s)) "label" ≠ "" ∧
     (index (processor.Meta ctl) "label" ≠ "" →
        processor.Meta (control s) = processor.Meta ctl) ∧
     (∀ k, k ≠ "label" → processor.Meta (control s) !! k = processor.Meta ctl !! k)) ∧
  ((∃ s, (serviceSetupFunc ctl h).1.1 = (Some s, None)) ∨
   (serviceSetupFunc ctl h).1.1 = (None, Some "missing image or name")).
Proof.
  unfold serviceSetupFunc.
  destruct (decide (index (processor.Meta ctl) "name" = ""
                    ∨ index (processor.Meta ctl) "image" = "")) as [Hbad|Hgood].
  - cbn [fst snd]. split; [|split].
    + split; [by intros [s ?]|]. intros [? ?]. by destruct Hbad.
    + by intros s ?.
    + by right.
  - assert (Hname : index (processor.Meta ctl) "name" ≠ "") by tauto.
    assert (Himage : index (processor.Meta ctl) "image" ≠ "") by tauto.
    cbn [fst snd]. split; [|split].
    + split; [done|]. intros _. by eexists.
    + intros s [= <-]. cbn [control processor.Meta].
      destruct (decide (index (processor.Meta ctl) "label" = "")) as [Hl|Hl].
      * split; [|split].
        -- unfold index at 1. by rewrite lookup_insert_eq.
        -- done.
        -- intros k Hk. by rewrite lookup_insert_ne.
      * done.
    + left. by eexists.
Qed.

(** ** The table as a whole *)

Lemma apply_writes_keeps (e : gmap string string) ws k :
  is_Some (e !! k) → is_Some (apply_writes e ws !! k).
Proof. intros He. rewrite apply_writes_lookup. by destruct (last _). Qed.

Lemma apply_writes_twice (e : gmap string string) ws :
  apply_writes (apply_writes e ws) ws = apply_writes e ws.
Proof.
  apply map_eq. intros k. rewrite !apply_writes_lookup.
  by destruct (last _).
Qed.

Lemma apply_writes_from_empty ws k v :
  apply_writes ∅ ws !! k = Some v → (k, v) ∈ ws.
Proof.
  rewrite apply_writes_lookup.
  destruct (last (filter (λ kv, kv.1 = k) ws)) as [[k' v']|] eqn:E.
  - intros [= <-]. apply last_Some_elem_of in E.
    apply list_elem_of_filter in E as [Hk Hin]. cbn in Hk. by subst k'.
  - by rewrite lookup_empty.
Qed.

Section Table.

Variable W : World.

(** X12. The projection only adds. Every key of the loaded table is still
    present afterwards (possibly with a new value), so no variable of
    another service is ever deleted by the projection itself. *)
Theorem project_keeps_loaded_keys
    (svc : models.Service) (e : gmap string string) (k : string) :
  is_Some (e !! k) → is_Some (project W svc e !! k).
Proof. rewrite project_assignments. apply apply_writes_keeps. Qed.

(** X13. Projecting twice is projecting once: a second run over the table
    the first one produced changes nothing. *)
Theorem project_idempotent (svc : models.Service) (e : gmap string string) :
  project W svc (project W svc e) = project W svc e.
Proof. rewrite !project_assignments. apply apply_writes_twice. Qed.

(** X14. [addEnvVars] does not notice a failed read. When [data.Get] fails
    and leaves the fresh empty table, the step reports nothing of it: it
    stores a table holding this service's variables and nothing else, in
    place of whatever the application had, and returns what that
    [data.Put] answers. *)
Theorem addEnvVars_overwrites_on_failed_Get
    (s : serviceSetup) (h : list call) (e : string) :
  on_Get_EnvVars W h (util_AppName W +:+ "_meta") "env" ∅ = (∅, Some e) →
  let bucket := util_AppName W +:+ "_meta" in
  let table := project W (service s) ∅ in
  since h (log (addEnvVars W s h))
    = [data_Get bucket "env"; data_Put bucket "env" (StoredEnvVars table)] ∧
  result (addEnvVars W s h)
    = on_Put W (h ++ [data_Get bucket "env"]) bucket "env" (StoredEnvVars table) ∧
  ∀ k v, table !! k = Some v → (k, v) ∈ assignments W (service s).
Proof.
  intros Hget. rewrite addEnvVars_run. rewrite Hget.
  cbn [result log fst snd]. rewrite since_app.
  split; [reflexivity|]. split; [reflexivity|].
  intros k v. rewrite project_assignments. apply apply_writes_from_empty.
Qed.

End Table.

(** ** The further statements at concrete inputs *)

Lemma pull_failure_undoes_nothing_witness :
  let W0 := scripted id pull_fails parse_ok in
  result (Process W0 fresh []) = Some "image not found" ∧
  cleanFuncs (after (Process W0 fresh [])) = [] ∧
  log (Process W0 fresh [])
    = [] ++ [header W0 fresh;
             data_Get (util_AppName W0) (index (processor.Meta (control fresh)) "name");
             docker_ImagePull (index (processor.Meta (control fresh)) "image")
                              (pull_prefix W0 fresh)].
Proof.
  intros W0.
  apply (pull_failure_undoes_nothing W0 fresh [] "image not found");
    vm_compute; reflexivity.
Defined.

Lemma launch_failure_returns_both_addresses_witness :
  let W0 := scripted id create_fails parse_ok in
  result (Process W0 fresh []) = Some "no such image" ∧
  log (Process W0 fresh [])
    = log (at_pull W0 fresh []) ++ reserve_calls
        ++ launch_calls W0 fresh (local_address_of W0 fresh [])
        ++ [ip_control_ReturnIP (local_address_of W0 fresh []);
            ip_control_ReturnIP (global_address_of W0 fresh [])].
Proof.
  intros W0.
  apply (launch_failure_returns_both_addresses W0 fresh [] "no such image");
    try (vm_compute; reflexivity).
  intros h c. by destruct c.
Defined.

Lemma nat_failure_rolls_back_four_witness :
  let W0 := scripted id nat_fails parse_ok in
  result (Process W0 fresh []) = Some "nat failed" ∧
  log (Process W0 fresh [])
    = log (at_pull W0 fresh []) ++ reserve_calls
        ++ launch_calls W0 fresh (local_address_of W0 fresh [])
        ++ attach_calls W0 (local_address_of W0 fresh []) (global_address_of W0 fresh [])
        ++ [ip_control_ReturnIP (local_address_of W0 fresh []);
            ip_control_ReturnIP (global_address_of W0 fresh []);
            docker_ContainerRemove (docker.ID (container_of W0 fresh []));
            provider_RemoveIP (IP_String W0 (global_address_of W0 fresh []))].
Proof.
  intros W0.
  apply (nat_failure_rolls_back_four W0 fresh [] "nat failed");
    try (vm_compute; reflexivity).
  intros h c. by destruct c.
Defined.

Lemma late_failure_rolls_back_five_witness :
  let W0 := scripted id exec_fails parse_ok in
  ∃ later, Forall (λ c, is_undo c = false) later ∧
    log (Process W0 fresh [])
    = log (at_attach W0 fresh []) ++ later
        ++ [ip_control_ReturnIP (local_address_of W0 fresh []);
            ip_control_ReturnIP (global_address_of W0 fresh []);
            docker_ContainerRemove (docker.ID (container_of W0 fresh []));
            provider_RemoveIP (IP_String W0 (global_address_of W0 fresh []));
            provider_RemoveNat (IP_String W0 (global_address_of W0 fresh []))
                               (IP_String W0 (local_address_of W0 fresh []))].
Proof.
  intros W0.
  apply (late_failure_rolls_back_five W0 fresh [] "hook failed");
    try (vm_compute; reflexivity).
  intros h c. by destruct c.
Defined.

Lemma env_failure_leaves_planned_record_witness :
  let W0 := scripted id env_put_fails parse_ok in
  result (Process W0 fresh []) = Some "store is read-only" ∧
  ∃ svc,
    models.State svc = "planned" ∧
    models.ID svc = docker.ID (container_of W0 fresh []) ∧
    log (Process W0 fresh [])
    = log (at_plan W0 fresh [])
        ++ replicate (length (models.Users (models.Plan svc))) (util_RandomString 10)
        ++ [data_Put (util_AppName W0) (index (processor.Meta (control fresh)) "name")
                     (StoredService svc);
            data_Get (util_AppName W0 +:+ "_meta") "env";
            data_Put (util_AppName W0 +:+ "_meta") "env"
                     (StoredEnvVars (project W0 svc (loaded_env W0 fresh [])))]
        ++ [ip_control_ReturnIP (local_address_of W0 fresh []);
            ip_control_ReturnIP (global_address_of W0 fresh []);
            docker_ContainerRemove (docker.ID (container_of W0 fresh []));
            provider_RemoveIP (IP_String W0 (global_address_of W0 fresh []));
            provider_RemoveNat (IP_String W0 (global_address_of W0 fresh []))
                               (IP_String W0 (local_address_of W0 fresh []))].
Proof.
  intros W0.
  apply (env_failure_leaves_planned_record W0 fresh [] "store is read-only");
    try (vm_compute; reflexivity).
  intros h c. by destruct c.
Defined.

Lemma successful_run_witness :
  let W0 := scripted id nothing_fails parse_ok in
  fail fresh = false ∧
  result (Process W0 fresh []) = None ∧
  models.State (service (after (Process W0 fresh []))) = "planned" ∧
  cleanFuncs (after (Process W0 fresh [])) = [] ++ undo_plan "c0ffee".
Proof.
  intros W0.
  assert (H1 : fail fresh = false) by reflexivity.
  assert (H2 : models.State (service (after (at_load W0 fresh []))) = "initialized")
    by (vm_compute; reflexivity).
  assert (H3 : result (Process W0 fresh []) = None) by (vm_compute; reflexivity).
  destruct (successful_run W0 fresh [] H1 H2 H3)
    as [_ [[_ [_ Hc]] [[_ [_ [_ [_ [Hstate _]]]]] [Hfs _]]]].
  split; [exact H1|]. split; [exact H3|]. split; [exact Hstate|].
  rewrite Hfs, Hc. reflexivity.
Defined.

Lemma rerun_after_failure_compensates_again_witness :
  let W0 := scripted id nothing_fails parse_ok in
  fail failed_after_persist = true ∧
  result (Process W0 failed_after_persist []) = None ∧
  cleanFuncs (after (Process W0 failed_after_persist [])) = cleanFuncs failed_after_persist ∧
  log (Process W0 failed_after_persist [])
    = [] ++ [header W0 failed_after_persist;
             data_Get (util_AppName W0)
                      (index (processor.Meta (control failed_after_persist)) "name")]
         ++ map (undo_call W0 failed_after_persist) (cleanFuncs failed_after_persist).
Proof.
  intros W0.
  assert (H1 : fail failed_after_persist = true) by (vm_compute; reflexivity).
  split; [exact H1|].
  apply (rerun_after_failure_compensates_again W0 failed_after_persist [] H1).
  - vm_compute. discriminate.
  - intros h c. by destruct c.
Defined.

Lemma persistService_replaces_every_password_witness :
  let W0 := scripted id nothing_fails parse_ok in
  let svc := service (after (persistService W0 fresh [])) in
  map models.Username (models.Users (models.Plan svc))
    = map models.Username (models.Users (parsed W0 fresh).1) ∧
  models.DefaultUser (models.Plan svc) = models.DefaultUser (parsed W0 fresh).1 ∧
  (∀ i u, models.Users (models.Plan svc) !! i = Some u →
     models.Password u
     = on_RandomString W0 ([] ++ replicate i (util_RandomString 10)) 10) ∧
  since [] (log (persistService W0 fresh []))
    = replicate (length (models.Users (parsed W0 fresh).1)) (util_RandomString 10)
        ++ [data_Put (util_AppName W0) (index (processor.Meta (control fresh)) "name")
                     (StoredService svc)].
Proof.
  intros W0. apply (persistService_replaces_every_password W0 fresh []). reflexivity.
Defined.

Lemma project_keeps_loaded_keys_witness :
  is_Some (project (scripted id nothing_fails parse_ok) (data_db [alice; bob] "alice")
                   {[ "PATH" := "/bin" ]} !! "PATH").
Proof.
  apply (project_keeps_loaded_keys _ _ {[ "PATH" := "/bin" ]} "PATH").
  exists "/bin". reflexivity.
Defined.

Lemma addEnvVars_overwrites_on_failed_Get_witness :
  let W0 := scripted id store_down parse_ok in
  let bucket := util_AppName W0 +:+ "_meta" in
  let table := project W0 (service fresh) ∅ in
  since [] (log (addEnvVars W0 fresh []))
    = [data_Get bucket "env"; data_Put bucket "env" (StoredEnvVars table)] ∧
  result (addEnvVars W0 fresh [])
    = on_Put W0 ([] ++ [data_Get bucket "env"]) bucket "env" (StoredEnvVars table) ∧
  ∀ k v, table !! k = Some v → (k, v) ∈ assignments W0 (service fresh).
Proof.
  intros W0.
  apply (addEnvVars_overwrites_on_failed_Get W0 fresh [] "store unavailable").
  reflexivity.
Defined.

(** ** Running a saga that failed once more *)



(** * Credentials: logging in *)

Ltac auth_run :=
  cbv beta iota zeta delta
    [auth.bind auth.ret auth.get auth.put auth.perform auth.exit auth.panic
     auth.LogFatal auth.ended auth.vars_after auth.calls].

Section Login.

Variable W : auth.World.

(** X15. A refused login ends the process and saves nothing. When the API
    answers an error, [authenticate] prints the failure, exits with code
    1, leaves the package variables as they were and writes no file. *)
Theorem failed_login_exits_without_saving
    (v : auth.vars) (h : list auth.call) (u p e : string) :
  (auth.on_GetAuthToken W (h ++ [auth.attempt u]) u p).2 = Some e →
  auth.authenticate W u p v h
  = (auth.Exited 1, v,
     h ++ [auth.attempt u;
           auth.api_GetAuthToken u p;
           auth.util_CPrint "[red]failure![reset]";
           auth.fmt_Println
             "Unable to login... please verify your username and password are correct.";
           auth.os_Exit 1]).
Proof.
  intros Herr. unfold auth.authenticate, auth.attempt in *. auth_run.
  rewrite Herr. auth_run. by rewrite <- !app_assoc.
Qed.

(** X16. An accepted login. When the API answers a user, [authenticate]
    replaces the credentials in memory by the user's id and token and
    writes "user_slug: ID\nauth_token: TOKEN" to the auth file with mode
    0755. If the write succeeds it reports success and returns the pair.
    If the write fails it calls [LogFatal]: the credentials in memory are
    the new ones all the same, and when [LogFatal] returns the function
    still reports success and returns the pair. *)
Theorem accepted_login_saves_credentials
    (v : auth.vars) (h : list auth.call) (u p : string) :
  (auth.on_GetAuthToken W (h ++ [auth.attempt u]) u p).2 = None →
  let user := (auth.on_GetAuthToken W (h ++ [auth.attempt u]) u p).1 in
  let id := auth.ID user in
  let token := auth.AuthenticationToken user in
  let v' := {| auth.creds := {| auth.Userslug := id; auth.Authtoken := token |};
               auth.authfile := auth.authfile v |} in
  let write := auth.ioutil_WriteFile (auth.authfile v)
                 ("user_slug: " +:+ id +:+ auth.LF +:+ "auth_token: " +:+ token) 493 in
  let h' := h ++ [auth.attempt u; auth.api_GetAuthToken u p; write] in
  auth.authenticate W u p v h
  = match auth.on_WriteFile W (h ++ [auth.attempt u; auth.api_GetAuthToken u p])
            (auth.authfile v)
            ("user_slug: " +:+ id +:+ auth.LF +:+ "auth_token: " +:+ token) 493 with
    | None =>
        (auth.Returned (id, token), v',
         h' ++ [auth.util_CPrint "[green]success![reset]"])
    | Some e =>
        match auth.LogFatal_ends W with
        | Some code =>
            (auth.Exited code, v',
             h' ++ [auth.util_LogFatal "[auth/auth] saveCredentials failed" e])
        | None =>
            (auth.Returned (id, token), v',
             h' ++ [auth.util_LogFatal "[auth/auth] saveCredentials failed" e;
                    auth.util_CPrint "[green]success![reset]"])
        end
    end.
Proof.
  intros Hok. unfold auth.authenticate, auth.saveCredentials, auth.attempt in *. auth_run.
  rewrite Hok. auth_run. rewrite <- !app_assoc. cbn [app].
  destruct (auth.on_WriteFile W _ _ _ _); auth_run.
  - destruct (auth.LogFatal_ends W); auth_run; by rewrite <- !app_assoc.
  - by rewrite <- !app_assoc.
Qed.

End Login.

Section Remembered.

Variables W W' : auth.World.

(** X17. A login is remembered. Once [authenticate] has returned a pair,
    the credentials in memory are that pair. If both parts are non-empty,
    [Authenticate] from then on returns the pair after printing its bullet
    and nothing else: no prompt, no call to the API, no write. If the API
    handed out an empty id or token, the package still counts as logged
    out. *)
Theorem login_is_remembered
    (v : auth.vars) (h h' : list auth.call) (u p id token : string) :
  auth.ended (auth.authenticate W u p v h) = auth.Returned (id, token) →
  let v' := auth.vars_after (auth.authenticate W u p v h) in
  auth.creds v' = {| auth.Userslug := id; auth.Authtoken := token |} ∧
  auth.authfile v' = auth.authfile v ∧
  (id ≠ "" → token ≠ "" →
   auth.Authenticate W' v' h'
   = (auth.Returned (id, token), v',
      h' ++ [auth.fmt_Printf (auth.stylish_Bullet W' "Authenticating..." []) []])) ∧
  (id = "" ∨ token = "" → auth.authenticated v' = false).
Proof.
  unfold auth.authenticate, auth.saveCredentials. auth_run.
  destruct (auth.on_GetAuthToken W _ u p).2; auth_run; [discriminate|].
  destruct (auth.on_WriteFile W _ _ _ _); auth_run.
  - destruct (auth.LogFatal_ends W); auth_run; [discriminate|].
    cbn [fst snd]. intros [= <- <-]. repeat split.
    + intros Hid Htok. unfold auth.Authenticate, auth.authenticated. auth_run.
      cbn [auth.creds auth.Userslug auth.Authtoken].
      rewrite decide_False by tauto. reflexivity.
    + intros Hempty. unfold auth.authenticated.
      cbn [auth.creds auth.Userslug auth.Authtoken]. by rewrite decide_True.
  - cbn [fst snd]. intros [= <- <-]. repeat split.
    + intros Hid Htok. unfold auth.Authenticate, auth.authenticated. auth_run.
      cbn [auth.creds auth.Userslug auth.Authtoken].
      rewrite decide_False by tauto. reflexivity.
    + intros Hempty. unfold auth.authenticated.
      cbn [auth.creds auth.Userslug auth.Authtoken]. by rewrite decide_True.
Qed.

(** X18. [Reauthenticate] never looks at the stored credentials. From two
    settings of the variables with the same auth file it makes the same
    calls and ends the same way, and when it returns it leaves the same
    variables. *)
Theorem Reauthenticate_ignores_stored_credentials
    (v1 v2 : auth.vars) (h : list auth.call) :
  auth.authfile v1 = auth.authfile v2 →
  auth.ended (auth.Reauthenticate W v1 h) = auth.ended (auth.Reauthenticate W v2 h) ∧
  auth.calls (auth.Reauthenticate W v1 h) = auth.calls (auth.Reauthenticate W v2 h) ∧
  (∀ r, auth.ended (auth.Reauthenticate W v1 h) = auth.Returned r →
        auth.vars_after (auth.Reauthenticate W v1 h)
        = auth.vars_after (auth.Reauthenticate W v2 h)).
Proof.
  intros Hfile.
  unfold auth.Reauthenticate, auth.authenticate, auth.saveCredentials. auth_run.
  destruct (auth.on_GetAuthToken W _ _ _).2; auth_run.
  - cbn [fst snd]. repeat split. discriminate.
  - rewrite Hfile.
    destruct (auth.on_WriteFile W _ _ _ _); auth_run.
    + destruct (auth.LogFatal_ends W); auth_run; cbn [fst snd]; repeat split.
    + cbn [fst snd]. repeat split.
Qed.

(** X19. How [init] ends, case by case. The auth file is the cleaned path
    of ".auth" under the configuration root, whatever happens. When
    [os.Stat] finds no file, [init] prints its bullet and calls
    [os.Create]; if that fails [init] panics with the error of [os.Create],
    having parsed nothing, the credentials untouched. Otherwise (the file
    was found, or was created) the file is parsed into fresh credentials,
    which replace the old ones: on a parse error [init] prints the failure
    and ends the process with code 1, and without one it returns, the
    parse being its last call. *)
Theorem init_outcomes (v : auth.vars) (h : list auth.call) :
  let path := auth.filepath_Clean W (auth.config_Root W +:+ "/.auth") in
  let r := auth.init W v h in
  let bullet := auth.fmt_Printf (auth.stylish_Bullet W "Creating %s directory" [path]) [] in
  let parse := λ h1,
    match auth.on_ParseConfig W h1 path {| auth.Userslug := ""; auth.Authtoken := "" |} with
    | (got, Some _) =>
        auth.ended r = auth.Exited 1 ∧
        auth.creds (auth.vars_after r) = got ∧
        auth.calls r
        = h1 ++ [auth.config_ParseConfig path;
                 auth.fmt_Printf ("Nanobox failed to parse the .auth file." +:+ auth.LF) [];
                 auth.os_Exit 1]
    | (got, None) =>
        auth.ended r = auth.Returned tt ∧
        auth.creds (auth.vars_after r) = got ∧
        auth.calls r = h1 ++ [auth.config_ParseConfig path]
    end in
  auth.authfile (auth.vars_after r) = path ∧
  if auth.on_Stat W h path then
    match auth.on_Create W (h ++ [auth.os_Stat path; bullet]) path with
    | Some e =>
        auth.ended r = auth.Panicked e ∧
        auth.creds (auth.vars_after r) = auth.creds v ∧
        auth.calls r = h ++ [auth.os_Stat path; bullet; auth.os_Create path]
    | None => parse (h ++ [auth.os_Stat path; bullet; auth.os_Create path])
    end
  else parse (h ++ [auth.os_Stat path]).
Proof.
  cbv zeta. unfold auth.init. auth_run.
  set (path := auth.filepath_Clean W (auth.config_Root W +:+ "/.auth")).
  destruct (auth.on_Stat W h path) eqn:Hstat; auth_run.
  - rewrite <- ?app_assoc. cbn [app].
    destruct (auth.on_Create W _ path) as [e|] eqn:Hcreate; auth_run.
    + cbn [fst snd auth.authfile auth.creds]. by rewrite <- ?app_assoc.
    + rewrite <- ?app_assoc. cbn [app].
      destruct (auth.on_ParseConfig W _ path _) as [got [e|]]; auth_run;
        cbn [fst snd auth.authfile auth.creds]; rewrite <- ?app_assoc; done.
  - destruct (auth.on_ParseConfig W _ path _) as [got [e|]]; auth_run;
      cbn [fst snd auth.authfile auth.creds]; rewrite <- ?app_assoc; done.
Qed.

End Remembered.

(** * The build command: what is cleaned up *)

Section BuildSteps.

Variable W : commands.World.

Lemma still_ret {A} (a : A) : commands.still (commands.ret a).
Proof. intros d h. exists []. cbn. by rewrite app_nil_r. Qed.

Lemma still_panic {A} e : commands.still (@commands.panic A e).
Proof. intros d h. exists []. cbn. by rewrite app_nil_r. Qed.

Lemma still_perform {A} c (f : list commands.call → A) :
  commands.quiet c = true → commands.still (commands.perform c f).
Proof. intros Hc d h. exists [c]. cbn. repeat split. by constructor. Qed.

Lemma still_bind {A B} (m : commands.M A) (k : A → commands.M B) :
  commands.still m → (∀ a, commands.still (k a)) → commands.still (commands.bind m k).
Proof.
  intros Hm Hk d h. unfold commands.bind.
  destruct (Hm d h) as [c1 [E1 [F1 D1]]].
  destruct (m d h) as [[[a|code|e] d1] h1]; cbn in *; subst d1 h1.
  - destruct (Hk a d (h ++ c1)) as [c2 [E2 [F2 D2]]].
    exists (c1 ++ c2). rewrite E2, D2, app_assoc. repeat split. by apply Forall_app.
  - by exists c1.
  - by exists c1.
Qed.

Lemma still_LogFatal msg e : commands.still (commands.LogFatal W msg e).
Proof.
  intros d h. exists [commands.ui_LogFatal msg e]. unfold commands.LogFatal.
  destruct (commands.LogFatal_ends W); cbn; repeat split; by constructor.
Qed.

Lemma still_fatal_if err msg : commands.still (commands.fatal_if W err msg).
Proof. destruct err; cbn; [apply still_LogFatal | apply still_ret]. Qed.

Ltac still_steps :=
  repeat first
    [ apply still_ret | apply still_panic | apply still_fatal_if
    | by apply still_perform
    | apply still_bind; [|intros ?]
    | progress cbv zeta
    | match goal with
      | |- commands.still (if ?x then _ else _) => destruct x
      | |- commands.still (match ?x with Some _ => _ | None => _ end) => destruct x
      end ].

Lemma on_model_still entry : commands.still (commands.on_model W entry).
Proof. unfold commands.on_model. still_steps. Qed.

Lemma on_message_still entry msg : commands.still (commands.on_message W entry msg).
Proof.
  unfold commands.on_message. destruct (commands.Tags msg) as [|tag tags].
  - apply still_panic.
  - repeat first [ apply on_model_still | progress still_steps ].
Qed.

(** The loop defers nothing, subscribes to nothing and makes none of the
    deferred calls, however it ends. *)
Lemma stream_still data entry : commands.still (commands.stream W data entry).
Proof.
  revert entry. induction data as [|msg rest IH]; intros entry; cbn [commands.stream].
  - apply still_ret.
  - apply still_bind; [apply on_message_still|]. intros [e go].
    destruct go; cbn; [apply IH | apply still_ret].
Qed.

Lemma calm_fatal_if err msg : commands.calm (commands.fatal_if W err msg).
Proof.
  intros d h. destruct err as [e|]; cbn.
  - exists [commands.ui_LogFatal msg e]. split; [by repeat constructor|].
    unfold commands.LogFatal. destruct (commands.LogFatal_ends W) as [code|].
    + right. by exists code.
    + by left.
  - exists []. split; [constructor|]. left. by rewrite app_nil_r.
Qed.

Lemma calm_warn_if err text : commands.calm (commands.warn_if W err text).
Proof.
  intros d h. destruct err as [e|]; cbn.
  - exists [commands.fmt_Printf (commands.stylish_Warning W text)].
    split; [by repeat constructor|]. by left.
  - exists []. split; [constructor|]. left. by rewrite app_nil_r.
Qed.

Lemma calm_usage (u : bool) :
  commands.calm (if u then commands.Help else commands.ret tt).
Proof.
  intros d h. destruct u; cbn.
  - exists [commands.ui_CPrint commands.help_text].
    split; [by repeat constructor|]. by left.
  - exists []. split; [constructor|]. left. by rewrite app_nil_r.
Qed.

(** Going on after a calm body: either the process has ended, or the
    rest runs on the same stack and a log longer by quiet calls. *)
Lemma calm_bind {B} (P : commands.outcome B * list commands.call * list commands.call → Prop)
    (m : commands.M unit) (k : unit → commands.M B) d h :
  commands.calm m →
  (∀ q, Forall (λ c, commands.quiet c = true) q → P (k tt d (h ++ q))) →
  (∀ code q, Forall (λ c, commands.quiet c = true) q →
     P (commands.Exited code, d, h ++ q)) →
  P (commands.bind m k d h).
Proof.
  intros Hm Hk Hx. unfold commands.bind.
  destruct (Hm d h) as [q [Hq [-> | [code ->]]]]; [by apply Hk | by apply Hx].
Qed.

Lemma bind_perform {A B} c (f : list commands.call → A) (k : A → commands.M B) d h :
  commands.bind (commands.perform c f) k d h = k (f h) d (h ++ [c]).
Proof. reflexivity. Qed.

Lemma bind_defer {B} c (k : unit → commands.M B) d h :
  commands.bind (commands.defer c) k d h = k tt (c :: d) h.
Proof. reflexivity. Qed.

Lemma bind_bind {A B C} (m : commands.M A) (k1 : A → commands.M B)
    (k2 : B → commands.M C) d h :
  commands.bind (commands.bind m k1) k2 d h
  = commands.bind m (λ a, commands.bind (k1 a) k2) d h.
Proof. unfold commands.bind. by destruct (m d h) as [[[a|code|e] d1] h1]. Qed.

Lemma bind_ret {A B} (a : A) (k : A → commands.M B) d h :
  commands.bind (commands.ret a) k d h = k a d h.
Proof. reflexivity. Qed.

Lemma quiet_no_cleanup q :
  Forall (λ c, commands.quiet c = true) q →
  Forall (λ c, commands.is_cleanup c = false) q.
Proof. intros H. eapply Forall_impl; [exact H|]. by intros []. Qed.

End BuildSteps.

Section BuildRun.

Variable W : commands.World.

(** Proves that a list built from quiet pieces is quiet. *)
Ltac quiet_list :=
  repeat first
    [ assumption
    | apply Forall_nil_2
    | apply Forall_app; split
    | apply Forall_cons; split; [reflexivity|] ].

(** Writes the log [L] as [base ++ p] with [p] quiet. *)
Ltac gather L base p Hp :=
  let E := fresh "E" in
  assert (∃ p, Forall (λ c, commands.quiet c = true) p ∧ L = base ++ p)
    as [p [Hp E]]
    by (repeat match goal with x := _ |- _ => subst x end; eexists; split; [|rewrite <- ?app_assoc; reflexivity]; quiet_list);
  rewrite E; clear E.

(** The process ended: no deferred call was made. *)
Ltac ended_here :=
  intros; unfold commands.finishes; cbn [fst snd];
  repeat match goal with x := _ |- _ => subst x end;
  eexists; split; [rewrite <- ?app_assoc; reflexivity|];
  repeat first
    [ apply Forall_nil_2
    | apply quiet_no_cleanup; assumption
    | apply Forall_app; split
    | apply Forall_cons; split; [reflexivity|] ].

Ltac ended_list :=
  repeat first
    [ apply Forall_nil_2
    | apply quiet_no_cleanup; assumption
    | apply Forall_app; split
    | apply Forall_cons; split; [reflexivity|] ].

Ltac calmly lem q Hq :=
  apply calm_bind; [apply lem | intros q Hq | ended_here].

Ltac gather_log base p Hp :=
  match goal with
  | |- commands.finishes _ _ _ (commands.bind _ _ _ ?L) => gather L base p Hp
  end.

(** The body of [Run] after the flags are parsed. *)
Lemma Run_parsed_finishes (parsed : commands.Parsed) (h : list commands.call) opts :
  commands.finishes W h (commands.fVerbose parsed)
    (commands.Run_parsed W parsed [] (h ++ [commands.flags_Parse opts])).
Proof.
  unfold commands.Run_parsed. cbv zeta.
  calmly calm_usage q1 Q1.
  calmly calm_fatal_if q2 Q2.
  rewrite bind_perform.
  calmly calm_fatal_if q3 Q3.
  rewrite bind_defer, 2!bind_perform.
  gather_log h pb Qb. clear q1 Q1 q2 Q2 q3 Q3.
  rewrite bind_perform.
  set (b := commands.on_Subscribe W (h ++ pb) ["job"; "build"]).
  set (hb := (h ++ pb) ++ [commands.client_Subscribe ["job"; "build"]]).
  calmly calm_warn_if q1 Q1.
  rewrite bind_defer, bind_perform.
  gather_log hb pi Qi. clear q1 Q1.
  rewrite bind_perform.
  set (i := commands.on_Subscribe W (hb ++ pi) ["log"; "build"; "info"]).
  set (hi := (hb ++ pi) ++ [commands.client_Subscribe ["log"; "build"; "info"]]).
  calmly calm_warn_if q1 Q1.
  rewrite bind_defer.
  assert (Tail : ∀ v base d p, Forall (λ c, commands.quiet c = true) p →
    ∃ rest, Forall (λ c, commands.quiet c = true) rest ∧
      let r := commands.bind
        (commands.perform
           (commands.printv ("   [√] SUCCESS" +:+ commands.LF) v)
           (λ _, tt))
        (λ _, commands.bind
           (commands.perform
              (commands.api_DoRawRequest "POST"
                 (if commands.fReset parsed
                  then ("http://" +:+ commands.config_Boxfile_IP W +:+ ":1757/builds")
                       +:+ "?reset=true"
                  else "http://" +:+ commands.config_Boxfile_IP W +:+ ":1757/builds"))
              (λ h, commands.on_DoRawRequest W h "POST"
                 (if commands.fReset parsed
                  then ("http://" +:+ commands.config_Boxfile_IP W +:+ ":1757/builds")
                       +:+ "?reset=true"
                  else "http://" +:+ commands.config_Boxfile_IP W +:+ ":1757/builds")))
           (λ err0, commands.bind
              (commands.fatal_if W err0 "[commands build] api.DoRawRequest() failed ")
              (λ _, commands.bind
                 (λ d h, (commands.Returned (commands.client_Data W h), d, h))
                 (λ data, commands.stream W data
                    (Some {| commands.Log := ""; commands.Model := "";
                             commands.Document := "" |})))))
        d (base ++ p) in
      r.2 = base ++ p ++ rest ∧ r.1.2 = d).
  { intros v base d p Hp. cbv zeta. rewrite 2!bind_perform.
    apply calm_bind; [apply calm_fatal_if | intros q Hq | intros code q Hq].
    - unfold commands.bind at 1.
      match goal with
      | |- context [commands.stream W ?data ?e d ?L] =>
          destruct (stream_still W data e d L) as [cs [E [F D]]]
      end.
      eexists. split; [|split; [rewrite E, <- ?app_assoc; reflexivity | exact D]].
      quiet_list.
    - eexists. split; [|split; [cbn [fst snd]; rewrite <- ?app_assoc; reflexivity|reflexivity]].
      quiet_list. }
  destruct (commands.fVerbose parsed) eqn:Hv.
  - rewrite bind_bind, bind_perform, bind_bind.
    gather_log hi pd Qd. clear q1 Q1.
    rewrite bind_perform, bind_bind.
    set (dbg := commands.on_Subscribe W (hi ++ pd) ["log"; "build"; "debug"]).
    set (hd := (hi ++ pd) ++ [commands.client_Subscribe ["log"; "build"; "debug"]]).
    calmly calm_warn_if q1 Q1.
    rewrite bind_defer.
    match goal with
    | |- commands.finishes _ _ _ (_ ?d0 _) =>
        destruct (Tail true hd d0 q1 Q1) as (rest & Qr & E & D)
    end.
    cbv zeta in E, D. revert E D. unfold commands.finishes.
    match goal with
    | |- context [match (?r).1.1 with _ => _ end] =>
        destruct r as [[o d'] l']
    end.
    cbn [fst snd]. intros -> ->.
    assert (Hlog : hd ++ q1 ++ rest
              = h ++ pb ++ [commands.client_Subscribe ["job"; "build"]] ++ pi
                  ++ [commands.client_Subscribe ["log"; "build"; "info"]] ++ pd
                  ++ [commands.client_Subscribe ["log"; "build"; "debug"]] ++ q1 ++ rest)
      by (subst hd hi hb; rewrite <- ?app_assoc; reflexivity).
    assert (Hsub : commands.subscribed W h true
              (pb ++ [commands.client_Subscribe ["job"; "build"]] ++ pi
                 ++ [commands.client_Subscribe ["log"; "build"; "info"]] ++ pd
                 ++ [commands.client_Subscribe ["log"; "build"; "debug"]] ++ q1 ++ rest)
              b.1 i.1 dbg.1).
    { exists pb, pi, pd, (q1 ++ rest). subst dbg hd i hi b hb.
      rewrite <- ?app_assoc. repeat split; quiet_list. }
    destruct o as [[]|code|e].
    + by eexists _, _, _, _.
    + eexists. split; [exact Hlog|]. ended_list.
    + by eexists _, _, _, _.
  - rewrite bind_ret.
    match goal with
    | |- commands.finishes _ _ _ (_ ?d0 _) =>
        destruct (Tail false hi d0 q1 Q1) as (rest & Qr & E & D)
    end.
    cbv zeta in E, D. revert E D. unfold commands.finishes.
    match goal with
    | |- context [match (?r).1.1 with _ => _ end] =>
        destruct r as [[o d'] l']
    end.
    cbn [fst snd]. intros -> ->.
    assert (Hlog : hi ++ q1 ++ rest
              = h ++ pb ++ [commands.client_Subscribe ["job"; "build"]] ++ pi
                  ++ [commands.client_Subscribe ["log"; "build"; "info"]] ++ q1 ++ rest)
      by (subst hi hb; rewrite <- ?app_assoc; reflexivity).
    assert (Hsub : commands.subscribed W h false
              (pb ++ [commands.client_Subscribe ["job"; "build"]] ++ pi
                 ++ [commands.client_Subscribe ["log"; "build"; "info"]] ++ q1 ++ rest)
              b.1 i.1 0%Z).
    { exists pb, pi, [], (q1 ++ rest). subst i hi b hb.
      rewrite <- ?app_assoc. repeat split; quiet_list. }
    destruct o as [[]|code|e].
    + by eexists _, _, _, _.
    + eexists. split; [exact Hlog|]. ended_list.
    + by eexists _, _, _, _.
Qed.

(** X20. [Run] makes the calls it deferred after everything else and last
    deferred first, exactly when the process is not ended inside it. A
    run that returns, or panics (on a message without tags, or on reading
    the log of the nil entry that decoding a JSON null leaves), ends its
    log with the unsubscriptions, of the debug logs under the verbose
    flag, then of the info logs, then of the build updates, and with
    [client.Close]. The numbers unsubscribed are the ones this run was
    given: the calls before split around its [client.Subscribe] calls, in
    order, into pieces that hold no subscription and no deferred call, and
    each number is what the world answered that [client.Subscribe] at the
    log as it stood. A run in which [ui.LogFatal] ends the process makes
    no unsubscription and never closes the client. *)
Theorem Run_cleans_up_unless_the_process_ends opts h :
  let verbose := commands.fVerbose (commands.on_Parse W h opts) in
  let r := commands.Run W opts h in
  match commands.ended r with
  | commands.Exited _ =>
      ∃ cs, commands.calls r = h ++ cs ∧
        Forall (λ c, commands.is_cleanup c = false) cs
  | _ =>
      ∃ cs b i dbg,
        commands.subscribed W h verbose cs b i dbg ∧
        commands.calls r = h ++ cs ++ commands.cleanup_calls verbose b i dbg
  end.
Proof.
  cbv zeta.
  unfold commands.Run, commands.function, commands.Run_body,
    commands.ended, commands.calls.
  rewrite bind_perform.
  pose proof (Run_parsed_finishes (commands.on_Parse W h opts) h opts) as H.
  unfold commands.finishes in H.
  destruct (commands.Run_parsed W _ [] _) as [[[[]|code|e] d] l]; cbn [fst snd] in *.
  - destruct H as (cs & b & i & dbg & Hsub & -> & ->).
    exists cs, b, i, dbg. by rewrite <- app_assoc.
  - exact H.
  - destruct H as (cs & b & i & dbg & Hsub & -> & ->).
    exists cs, b, i, dbg. by rewrite <- app_assoc.
Qed.

End BuildRun.

Section BuildStream.

Variable W : commands.World.

(** One silent turn: no call, the loop goes on. *)
Lemma on_message_silent entry msg d h :
  commands.silent W entry msg →
  commands.on_message W entry msg d h
  = (commands.Returned ((commands.Unmarshal_Entry W (commands.Data msg) entry).1, true), d, h).
Proof.
  intros [[tag [tags [Ht Hne]]] H]. cbv zeta in H.
  destruct H as [He [e [Hgot [Hl [Hm [Hb [Hc Her]]]]]]].
  unfold commands.on_message. rewrite Ht.
  destruct (decide (tag = "err")) as [|_]; [done|]. cbv zeta.
  rewrite He, Hgot. unfold commands.bind at 1. cbn [commands.fatal_if commands.ret].
  destruct (decide (commands.Log e ≠ "")) as [|_]; [done|].
  destruct (decide (commands.Model e ≠ "")) as [_|Hn].
  2:{ exfalso. apply Hn. destruct Hm as [-> | ->]; done. }
  unfold commands.on_model.
  destruct (decide (_ ∨ _)) as [_|]; [|done]. cbv zeta.
  rewrite Hb.
  destruct (decide (commands.Status _ = "compelete")) as [|_]; [done|].
  destruct (decide (commands.Status _ = "errored")) as [|_]; [done|].
  reflexivity.
Qed.

(** X21. The build status that ends the stream is spelled "compelete". A
    stream of messages that are all silent (each with a first tag other
    than "err", decoding to a build model without a log whose status is
    neither "compelete" nor "errored": "complete", for one) is read to
    its end without a single call: nothing is printed and the loop only
    ends when the channel is closed. *)
Theorem stream_reads_on_past_other_statuses data entry d h :
  Forall (λ msg, ∀ entry, commands.silent W entry msg) data →
  commands.stream W data entry d h = (commands.Returned tt, d, h).
Proof.
  intros Hall. revert entry.
  induction Hall as [|msg rest Hmsg _ IH]; intros entry; cbn [commands.stream].
  - reflexivity.
  - unfold commands.bind. rewrite (on_message_silent _ _ _ _ (Hmsg entry)).
    cbn. apply IH.
Qed.

(** X22. Nothing is read after a message tagged "err". After any number
    of silent messages, a message whose first tag is "err" makes the loop
    print the warning and leave; the messages behind it are never looked
    at, whatever they are. *)
Theorem stream_stops_at_err before msg tags behind entry d h :
  Forall (λ msg, ∀ entry, commands.silent W entry msg) before →
  commands.Tags msg = "err" :: tags →
  commands.stream W (before ++ msg :: behind) entry d h
  = (commands.Returned tt, d,
     h ++ [commands.fmt_Printf (commands.stylish_Warning W commands.lost_stream)]).
Proof.
  intros Hall Ht. revert entry.
  induction Hall as [|m rest Hm _ IH]; intros entry; cbn [commands.stream app].
  - unfold commands.bind, commands.on_message. rewrite Ht.
    destruct (decide ("err" = "err")); [|done]. reflexivity.
  - unfold commands.bind at 1. rewrite (on_message_silent _ _ _ _ (Hm entry)).
    cbn [fst snd]. apply IH.
Qed.

End BuildStream.


(** * The extras on concrete runs *)

Lemma failed_login_exits_without_saving_witness :
  auth.authenticate auth.mistyping "alice" "hunter3" auth.logged_out []
  = (auth.Exited 1, auth.logged_out,
     [] ++ [auth.attempt "alice";
            auth.api_GetAuthToken "alice" "hunter3";
            auth.util_CPrint "[red]failure![reset]";
            auth.fmt_Println
              "Unable to login... please verify your username and password are correct.";
            auth.os_Exit 1]).
Proof.
  apply (failed_login_exits_without_saving auth.mistyping auth.logged_out []
           "alice" "hunter3" "401 Unauthorized").
  reflexivity.
Defined.

Lemma accepted_login_saves_credentials_witness :
  auth.ended (auth.authenticate (auth.typing false) "alice" "hunter2" auth.logged_out [])
  = auth.Exited 1 ∧
  auth.creds (auth.vars_after
    (auth.authenticate (auth.typing false) "alice" "hunter2" auth.logged_out []))
  = {| auth.Userslug := "alice"; auth.Authtoken := "t0k3n" |}.
Proof.
  rewrite (accepted_login_saves_credentials (auth.typing false) auth.logged_out []
             "alice" "hunter2"); [|reflexivity].
  split; reflexivity.
Defined.

Lemma login_is_remembered_witness :
  auth.Authenticate auth.mistyping
    (auth.vars_after (auth.authenticate (auth.typing true) "alice" "hunter2"
                        auth.logged_out [])) []
  = (auth.Returned ("alice", "t0k3n"),
     auth.vars_after (auth.authenticate (auth.typing true) "alice" "hunter2"
                        auth.logged_out []),
     [] ++ [auth.fmt_Printf (auth.stylish_Bullet auth.mistyping "Authenticating..." []) []]).
Proof.
  apply (login_is_remembered (auth.typing true) auth.mistyping auth.logged_out [] []
           "alice" "hunter2" "alice" "t0k3n"); [reflexivity|discriminate|discriminate].
Defined.

Lemma Reauthenticate_ignores_stored_credentials_witness :
  let v := {| auth.creds := {| auth.Userslug := "bob"; auth.Authtoken := "old" |};
              auth.authfile := auth.authfile auth.logged_out |} in
  auth.calls (auth.Reauthenticate (auth.typing true) auth.logged_out [])
  = auth.calls (auth.Reauthenticate (auth.typing true) v []).
Proof.
  intros v.
  apply (Reauthenticate_ignores_stored_credentials (auth.typing true) auth.logged_out v []).
  reflexivity.
Defined.

Lemma stream_reads_on_past_other_statuses_witness :
  commands.stream (commands.quiet_world commands.plain_flags None [])
    [ {| commands.Tags := ["job"; "build"]; commands.Data := "running" |};
      {| commands.Tags := ["job"; "build"]; commands.Data := "complete" |} ]
    (Some {| commands.Log := ""; commands.Model := ""; commands.Document := "" |}) [] []
  = (commands.Returned tt, [], []).
Proof.
  apply (stream_reads_on_past_other_statuses
           (commands.quiet_world commands.plain_flags None [])).
  repeat (constructor;
    [intros e; split;
       [exists "job", ["build"]; split; [reflexivity|discriminate]
       |cbn; split; [reflexivity|]; eexists; split; [reflexivity|];
        cbn; repeat split; try discriminate; by right] |]).
  constructor.
Defined.

Lemma stream_stops_at_err_witness :
  commands.stream (commands.quiet_world commands.plain_flags None [])
    ([ {| commands.Tags := ["job"; "build"]; commands.Data := "complete" |} ]
     ++ {| commands.Tags := ["err"]; commands.Data := "" |}
     :: [ {| commands.Tags := []; commands.Data := "" |} ])
    (Some {| commands.Log := ""; commands.Model := ""; commands.Document := "" |}) [] []
  = (commands.Returned tt, [],
     [] ++ [commands.fmt_Printf
              (commands.stylish_Warning (commands.quiet_world commands.plain_flags None [])
                 commands.lost_stream)]).
Proof.
  apply (stream_stops_at_err (commands.quiet_world commands.plain_flags None [])
           [ {| commands.Tags := ["job"; "build"]; commands.Data := "complete" |} ]
           {| commands.Tags := ["err"]; commands.Data := "" |} []).
  - repeat (constructor;
      [intros e; split;
         [exists "job", ["build"]; split; [reflexivity|discriminate]
         |cbn; split; [reflexivity|]; eexists; split; [reflexivity|];
          cbn; repeat split; try discriminate; by right] |]).
    constructor.
  - reflexivity.
Defined.

Lemma init_outcomes_witness :
  auth.authfile (auth.vars_after (auth.init auth.no_home auth.logged_out []))
  = "/home/alice/.nanobox/.auth" ∧
  auth.ended (auth.init auth.no_home auth.logged_out [])
  = auth.Panicked "permission denied" ∧
  auth.creds (auth.vars_after (auth.init auth.no_home auth.logged_out []))
  = auth.creds auth.logged_out ∧
  auth.calls (auth.init auth.no_home auth.logged_out [])
  = [] ++ [auth.os_Stat "/home/alice/.nanobox/.auth";
           auth.fmt_Printf "+ Creating %s directory" [];
           auth.os_Create "/home/alice/.nanobox/.auth"].
Proof. exact (init_outcomes auth.no_home auth.logged_out []). Defined.

Lemma Run_cleans_up_unless_the_process_ends_witness :
  let W0 := commands.quiet_world commands.verbose_flags None
              [ {| commands.Tags := ["job"; "build"]; commands.Data := "null" |} ] in
  commands.ended (commands.Run W0 ["-v"] [])
  = commands.Panicked "invalid memory address or nil pointer dereference" ∧
  ∃ cs b i dbg,
    commands.subscribed W0 [] true cs b i dbg ∧
    commands.calls (commands.Run W0 ["-v"] [])
    = [] ++ cs ++ commands.cleanup_calls true b i dbg.
Proof.
  intros W0.
  assert (E : commands.ended (commands.Run W0 ["-v"] [])
              = commands.Panicked "invalid memory address or nil pointer dereference")
    by (vm_compute; reflexivity).
  split; [exact E|].
  pose proof (Run_cleans_up_unless_the_process_ends W0 ["-v"] []) as H.
  cbv zeta in H. rewrite E in H. exact H.
Defined.
